(** * Dolev-Yao verification of the Needham-Schroeder-Lowe protocol

    A shallow embedding of [examples/dolevyao_nsl.c].

    The C file manipulates items through an API of wrapper functions that
    are declared with contracts only.  An item object [struct item *] is
    embedded as the item value it represents (the [item] predicate of the
    source), so [item_free] has no effect here.  A function that "aborts"
    in the source stops the run with [Aborted]; a call outside a contract's
    precondition stops it with [Fault].

    The world is the list of the items sent so far: [net_send] adds an item,
    [net_receive] plucks one of them.  The choices the source leaves open
    (the results of [choose()], which item [net_receive] plucks) are read
    from the state.

    The fixpoints that [_call_perms.javaspec] defines in full, the methods
    of [class Division] and the precondition of [fopen] in [stdio.h] are
    embedded after the API. *)

From stdpp Require Import base decidable option list countable gmap.
From Stdlib Require Import ZArith Bool Lia Ascii.

Local Open Scope Z_scope.

(** ** Items *)

Inductive item : Type :=
  | key_item (creator : Z) (id : Z) (isPublicKey : bool) (info : Z)
  | data_item (id : Z)
  | encrypted_item (keyCreator : Z) (id : Z) (info : Z) (payload : item)
  | pair_item (first : item) (second : item).

#[global] Instance item_eq_dec : EqDecision item.
Proof. solve_decision. Defined.

(** [struct keypair], through the predicate [keypair(kp, creator, id, info)]. *)
Record keypair : Type := Keypair {
  kp_creator : Z;
  kp_id : Z;
  kp_info : Z
}.

(** ** State *)

Record state : Type := State {
  principals : Z;
    (* [principals(count)]: the number of principals generated *)
  principal : gmap Z Z;
    (* [principal(id, keyCount)]: the number of keys generated by [id] *)
  world : list item;
    (* the items sent into the world, oldest first *)
  chooses : list Z;
    (* the results of the coming calls of [choose()] *)
  plucks : list nat
    (* the position in the world of the item each coming [net_receive] returns *)
}.

Definition set_principals (c : Z) (s : state) : state :=
  State c (principal s) (world s) (chooses s) (plucks s).
Definition set_principal (m : gmap Z Z) (s : state) : state :=
  State (principals s) m (world s) (chooses s) (plucks s).
Definition set_world (w : list item) (s : state) : state :=
  State (principals s) (principal s) w (chooses s) (plucks s).
Definition set_chooses (c : list Z) (s : state) : state :=
  State (principals s) (principal s) (world s) c (plucks s).
Definition set_plucks (p : list nat) (s : state) : state :=
  State (principals s) (principal s) (world s) (chooses s) p.

(** ** Runs *)

Inductive stop : Type :=
  | Aborted   (* [abort()], or an API function that aborts *)
  | Blocked   (* nothing left to choose or to receive: the run is cut here *)
  | Assumed   (* a ghost [assume] does not hold: the path is not considered *)
  | Fault.    (* a call outside the precondition of a contract *)

Inductive outcome (A : Type) : Type :=
  | Ret (a : A) (s : state)
  | Stop (why : stop) (s : state).
Arguments Ret {A} a s.
Arguments Stop {A} why s.

Definition M (A : Type) : Type := state -> outcome A.

Definition ret {A} (a : A) : M A := fun s => Ret a s.

Definition bind {A B} (m : M A) (k : A -> M B) : M B :=
  fun s =>
    match m s with
    | Ret a s' => k a s'
    | Stop w s' => Stop w s'
    end.

Definition halt {A} (w : stop) : M A := fun s => Stop w s.

Declare Scope run_scope.
Delimit Scope run_scope with run.
Notation "x <- c1 ;; c2" := (bind c1 (fun x => c2))
  (at level 100, c1 at next level, c2 at level 200, right associativity) : run_scope.
Notation "c1 ;; c2" := (bind c1 (fun _ => c2))
  (at level 100, c2 at level 200, right associativity) : run_scope.
Local Open Scope run_scope.

(** The state an outcome ends in. *)
Definition final {A} (o : outcome A) : state :=
  match o with
  | Ret _ s => s
  | Stop _ s => s
  end.

(** [abort()] of stdlib.h. *)
Definition abort {A} : M A := halt Aborted.

(** The ghost statement [assume(b)]. *)
Definition assume (b : bool) : M unit :=
  if b then ret tt else halt Assumed.

(** ** A model of the pairing of integers

    The source declares [int_pair], [int_left] and [int_right] without a
    body.  [zpair] is one function that satisfies their two lemmas; it is
    used to run the definitions below on concrete inputs. *)

Definition zpair (f s : Z) : Z := Z.pos (encode (f, s)).

Definition zunpair (p : Z) : Z * Z :=
  match p with
  | Z.pos q => default (0, 0) (decode q)
  | _ => (0, 0)
  end.

Definition zleft (p : Z) : Z := fst (zunpair p).
Definition zright (p : Z) : Z := snd (zunpair p).

(** ** The API wrapper functions

    Each function is the one its contract in the source describes: what the
    postcondition says of the result where the function returns, [abort]
    where the postcondition is [false]. *)

(** The lemma [create_principal]:
    [principals(count)] becomes [principals(count + 1) &*& principal(count, 0)]. *)
Definition create_principal : M Z :=
  fun s =>
    let count := principals s in
    Ret count (set_principals (count + 1) (set_principal (<[count := 0]> (principal s)) s)).

(** [create_keypair()], for the principal whose [principal] chunk the caller
    holds and the info of the [keypair_request] it closed. *)
Definition create_keypair (p : Z) (info : Z) : M keypair :=
  fun s =>
    match principal s !! p with
    | Some keyCount =>
        Ret (Keypair p keyCount info)
            (set_principal (<[p := keyCount + 1]> (principal s)) s)
    | None => Stop Fault s
    end.

Definition keypair_get_private_key (kp : keypair) : M item :=
  ret (key_item (kp_creator kp) (kp_id kp) false (kp_info kp)).

Definition keypair_get_public_key (kp : keypair) : M item :=
  ret (key_item (kp_creator kp) (kp_id kp) true (kp_info kp)).

(** [check_is_key] aborts if the item is not a key. *)
Definition check_is_key (i : item) : M unit :=
  match i with
  | key_item creator id isPublicKey info => ret tt
  | data_item d => abort
  | encrypted_item creator id info payload => abort
  | pair_item f s => abort
  end.

Definition create_data_item (data : Z) : M item := ret (data_item data).

(** [item_get_data] aborts if the item is not a data item. *)
Definition item_get_data (i : item) : M Z :=
  match i with
  | data_item d => ret d
  | key_item creator id isPublicKey info => abort
  | encrypted_item creator id info payload => abort
  | pair_item f s => abort
  end.

(** [encrypt] aborts if the key is a private key; it requires a key. *)
Definition encrypt (key payload : item) : M item :=
  match key with
  | key_item creator id isPublicKey info =>
      if isPublicKey then ret (encrypted_item creator id info payload) else abort
  | _ => halt Fault
  end.

(** [decrypt] aborts if the key is a public key; it requires a key. *)
Definition decrypt (key i : item) : M item :=
  match key with
  | key_item creator id isPublicKey info =>
      if isPublicKey then abort
      else
        match i with
        | encrypted_item creator0 id0 info0 p =>
            if (creator0 =? creator) && (id0 =? id) && (info0 =? info)
            then ret p else abort
        | key_item creator0 id0 isPublicKey0 info0 => abort
        | data_item d => abort
        | pair_item f s => abort
        end
  | _ => halt Fault
  end.

Definition create_pair (first second : item) : M item :=
  ret (pair_item first second).

(** [net_send] sends an item into the world. *)
Definition net_send (datagram : item) : M unit :=
  fun s => Ret tt (set_world (world s ++ [datagram]) s).

(** [net_receive] plucks an arbitrary item from the world. *)
Definition net_receive : M item :=
  fun s =>
    match plucks s with
    | [] => Stop Blocked s
    | n :: rest =>
        match world s !! n with
        | Some d => Ret d (set_plucks rest s)
        | None => Stop Blocked (set_plucks rest s)
        end
    end.

Definition pair_get_first (pair : item) : M item :=
  match pair with
  | pair_item f s => ret f
  | key_item creator id isPublicKey info => abort
  | data_item d => abort
  | encrypted_item creator id info payload => abort
  end.

Definition pair_get_second (pair : item) : M item :=
  match pair with
  | pair_item f s => ret s
  | key_item creator id isPublicKey info => abort
  | data_item d => abort
  | encrypted_item creator id info payload => abort
  end.

Definition item_equals (item1 item2 : item) : M bool :=
  ret (bool_decide (item1 = item2)).

Definition item_free (i : item) : M unit := ret tt.

Definition choose : M Z :=
  fun s =>
    match chooses s with
    | [] => Stop Blocked s
    | z :: rest => Ret z (set_chooses rest s)
    end.

(** ** Runs of the registry *)

Inductive registry_call : Type :=
  | CreatePrincipal
  | CreateKeypair (p : Z) (info : Z).

Definition registry_step (c : registry_call) : M (list keypair) :=
  match c with
  | CreatePrincipal => create_principal;; ret []
  | CreateKeypair p info => kp <- create_keypair p info;; ret [kp]
  end.

(** A sequence of calls of the registry; the result lists the key pairs
    created, oldest first. *)
Fixpoint registry_run (calls : list registry_call) : M (list keypair) :=
  match calls with
  | [] => ret []
  | c :: cs =>
      k <- registry_step c;;
      ks <- registry_run cs;;
      ret (k ++ ks)
  end.

(** The (creator, index) pair of a key pair. *)
Definition identity (kp : keypair) : Z * Z := (kp_creator kp, kp_id kp).

(** Every [principal] chunk belongs to a principal already counted. *)
Definition registry_ok (s : state) : Prop :=
  forall p n, principal s !! p = Some n -> p < principals s.

(** A (creator, index) pair that the principal has not reached yet. *)
Definition unused (s : state) (ci : Z * Z) : Prop :=
  match principal s !! fst ci with
  | Some keyCount => keyCount <= snd ci
  | None => True
  end.

(** [principals(0)] and nothing sent: the state [attacker] requires. *)
Definition initial (cs : list Z) (ps : list nat) : state :=
  State 0 ∅ [] cs ps.

(** ** A scenario

    Principals 1 (a client) and 2 (a server) with encryption keys of id 7,
    and one session between them. *)

Definition honest (p : Z) : bool := false.

(** Principal 3 is bad, the others are not. *)
Definition bad3 (p : Z) : bool := p =? 3.

Definition directory (p : Z) : Z := 7.

Definition private_key (p : Z) : item := key_item p 7 false (zpair 0 0).
Definition public_key (p : Z) : item := key_item p 7 true (zpair 0 0).

Definition nonce1 : item := key_item 1 0 false (zpair 1 2).
Definition nonce2 : item :=
  key_item 2 0 false (zpair 2 (zpair 1 (zpair 1 (zpair 0 (zpair 1 2))))).

Definition message1 : item :=
  encrypted_item 2 7 (zpair 0 0) (pair_item (data_item 1) nonce1).
Definition message2 : item :=
  encrypted_item 1 7 (zpair 0 0)
    (pair_item (data_item 2) (pair_item nonce1 nonce2)).
Definition message3 : item := encrypted_item 2 7 (zpair 0 0) nonce2.

(** The client is about to start and will receive the second message. *)
Definition client_start : state :=
  State 3 {[1 := 0; 2 := 0]} [message2] [] [0%nat].

(** The server is about to start and will receive the first message and then
    the third. *)
Definition server_start : state :=
  State 3 {[1 := 1; 2 := 0]} [message1; message3] [] [0%nat; 1%nat].

(** The first message of a client 1 that talks to the bad principal 3. *)
Definition message1_to_3 : item :=
  encrypted_item 3 7 (zpair 0 0)
    (pair_item (data_item 1) (key_item 1 0 false (zpair 1 3))).

(** ** The call-permission library

    The fixpoints of [_call_perms.javaspec] that the file defines in full.
    Ghost integers are unbounded. *)

(** [exists(xs, p)]. *)
Fixpoint exists_ {t} (xs : list t) (p : t -> bool) : bool :=
  match xs with
  | [] => false
  | x :: xs0 => p x || exists_ xs0 p
  end.

Definition lt_some {t} (lt : t -> t -> bool) (ys : list t) (x : t) : bool :=
  exists_ ys (lt x).

Definition is_lesser_element {t} (set : t -> bool) (lt : t -> t -> bool)
    (x y : t) : bool :=
  set y && lt y x.

Definition int_lt (x y : Z) : bool := (0 <=? x) && (x <? y).

Definition pair_lt {a b} `{EqDecision a} (a_lt : a -> a -> bool)
    (b_lt : b -> b -> bool) (x y : a * b) : bool :=
  a_lt (fst x) (fst y) || bool_decide (fst x = fst y) && b_lt (snd x) (snd y).

(** The relation of a boolean order. *)
Definition holds {t} (lt : t -> t -> bool) (x y : t) : Prop := lt x y = true.

(** ** [class Division]

    A Java [int] is an integer of 32 bits in two's complement; [/] and [%]
    throw an ArithmeticException on a zero divisor ([None]) and truncate
    toward zero. *)

Definition int_min : Z := -2147483648.
Definition int_max : Z := 2147483647.

Definition to_int (z : Z) : Z :=
  (z + 2147483648) mod 4294967296 - 2147483648.

Definition java_div (x y : Z) : option Z :=
  if y =? 0 then None else Some (to_int (Z.quot x y)).

Definition java_rem (x y : Z) : option Z :=
  if y =? 0 then None else Some (to_int (Z.rem x y)).

Definition division_test (nom denom : Z) : option Z :=
  match java_div nom denom with
  | Some tmp => Some tmp
  | None => None
  end.

(** [division_test2]; the result is the pair of [tmp] and [rest] at its
    assertion. *)
Definition division_test2 (nom denom : Z) : option (Z * Z) :=
  match java_div nom denom with
  | Some tmp =>
      match java_rem nom denom with
      | Some rest => Some (tmp, rest)
      | None => None
      end
  | None => None
  end.

(** [bigwiseand_test]; the result is [tmp] at its assertion. *)
Definition bigwiseand_test (x : Z) : Z := Z.land x 255.

Definition division_test_fail (nom denom : Z) : option Z :=
  match java_div nom denom with
  | Some tmp => Some tmp
  | None => None
  end.

(** ** [stdio.h]

    The precondition of [fopen] on the characters [fcs] of the file name and
    [mcs] of the mode, with [mem], [length] and [nth] the list functions of
    these names. *)

Definition NUL : ascii := "000"%char.

Definition fopen_requires (fcs mcs : list ascii) : bool :=
  bool_decide (NUL ∈ fcs) && bool_decide (NUL ∈ mcs)
  && ((length mcs =? 2)%nat || (length mcs =? 3)%nat)
  && (Ascii.eqb (nth 0 mcs NUL) "r" || Ascii.eqb (nth 0 mcs NUL) "w"
      || Ascii.eqb (nth 0 mcs NUL) "a")
  && (if (length mcs =? 3)%nat
      then Ascii.eqb (nth 1 mcs NUL) "+" || Ascii.eqb (nth 1 mcs NUL) "b"
      else true).

(** The mode strings of one letter, and of one letter and [+] or [b], each
    with its terminator. *)
Definition fopen_modes : list (list ascii) :=
  [ ["r"; NUL]; ["w"; NUL]; ["a"; NUL];
    ["r"; "+"; NUL]; ["r"; "b"; NUL];
    ["w"; "+"; NUL]; ["w"; "b"; NUL];
    ["a"; "+"; NUL]; ["a"; "b"; NUL] ]%char.

(** ** What runs on the world

    A new principal, a run of the client, an iteration of the server, an
    action of the attacker. *)

Inductive actor : Type :=
  | NewPrincipal
  | ClientRun (client server cskid spkid : Z)
  | ServerRun (server sskid : Z)
  | AttackerAction (me : Z).

(** A client run, three actions of the attacker, a server iteration. *)
Definition busy_schedule : list actor :=
  [ClientRun 1 2 7 7; AttackerAction 3; AttackerAction 3; AttackerAction 3;
   ServerRun 2 7].

(** The world of [client_start] with the bad principal 3 about to leak a key
    and to pair two items. *)
Definition attacker_start : state :=
  State 4 {[1 := 0; 2 := 0; 3 := 0]} [message2] [0; 9; 2; 1; 42]
    [0%nat; 0%nat; 1%nat].

(** ** The protocol *)

Section NSL.

(** The fixpoints the source declares without a body. *)
Variable int_left : Z -> Z.
Variable int_right : Z -> Z.
Variable int_pair : Z -> Z -> Z.
Variable bad : Z -> bool.

(** The key directory behind [get_client_public_key]: the id of the public
    key it returns for a principal. *)
Variable client_key_id : Z -> Z.

Hypothesis int_left_int_pair : forall f s, int_left (int_pair f s) = f.
Hypothesis int_right_int_pair : forall f s, int_right (int_pair f s) = s.

(* info:
     int_pair 0 0: for encryption
     int_pair 1 server: client nonce
     int_pair 2 (int_pair client (int_pair client_nonce_creator
       (int_pair client_nonce_public_key client_nonce_info))): server nonce *)

(** A definition of "pub" for the example protocol. *)
Fixpoint mypub (i : item) : bool :=
  match i with
  | key_item o k isPublicKey info =>
      isPublicKey || bad o
      || (int_left info =? 1) && bad (int_right info)
      || (int_left info =? 2) && bad (int_left (int_right info))
  | data_item d => true
  | encrypted_item creator id info m =>
      mypub m ||
      match m with
      | key_item creator0 id0 isPublicKey0 info0 =>
          (int_left info0 =? 2) && (creator =? creator0) && negb isPublicKey0
          && (info =? int_pair 0 0)
          && (int_left (int_right info0) =? int_left (int_right (int_right info0)))
          && (int_left (int_right (int_right (int_right info0))) =? 0)
          && (int_right (int_right (int_right (int_right info0))) =? int_pair 1 creator)
      | pair_item f s =>
          match s with
          | key_item creator0 id0 isPublicKey0 info0 =>
              (info0 =? int_pair 1 creator) && bool_decide (f = data_item creator0)
              && negb isPublicKey0 && (info =? int_pair 0 0)
          | pair_item fs ss =>
              match ss with
              | key_item creator0 id0 isPublicKey0 info0 =>
                  (int_left info0 =? 2) && (creator =? int_left (int_right info0))
                  && negb isPublicKey0 && bool_decide (f = data_item creator0)
                  && (info =? int_pair 0 0)
                  && (mypub fs ||
                      match fs with
                      | key_item creator1 id1 isPublicKey1 info1 =>
                          (creator1 =? int_left (int_right (int_right info0)))
                          && ((if isPublicKey1 then 1 else 0)
                              =? int_left (int_right (int_right (int_right info0))))
                          && (info1 =? int_right (int_right (int_right (int_right info0))))
                          && (creator1 =? creator) && negb isPublicKey1
                          && (info1 =? int_pair 1 creator0)
                      | _ => false
                      end)
              | _ => false
              end
          | _ => false
          end
      | _ => false
      end
  | pair_item f s => mypub f && mypub s
  end.

(** The world holds public items only: [world(mypub)]. *)
Definition world_sound (s : state) : Prop :=
  Forall (fun d => mypub d = true) (world s).

(** [get_client_public_key(client)]: the result is a public encryption key of
    [client]; the contract leaves its id open. *)
Definition get_client_public_key (client : Z) : M item :=
  ret (key_item client (client_key_id client) true (int_pair 0 0)).

(* 1. A -> B. {A,NA}_K(B)
   2. B -> A. {B,NA,NB}_K(A)
   3. A -> B. {NB}_K(B) *)

(** [client]; the result is the pair of the items [cn] and [sn] of its last
    assertion, the client nonce and the server nonce. *)
Definition client (client server : Z) (clientPrivateKey serverPublicKey : item)
  : M (item * item) :=
  noncePair <- create_keypair client (int_pair 1 server);;
  clientNonce <- keypair_get_private_key noncePair;;
  i0 <- keypair_get_public_key noncePair;;
  item_free i0;;

  i1 <- create_data_item client;;
  i2 <- create_pair i1 clientNonce;;
  i3 <- encrypt serverPublicKey i2;;
  net_send i3;;
  item_free i1;;
  item_free i2;;
  item_free i3;;

  i4 <- net_receive;;
  i5 <- decrypt clientPrivateKey i4;;
  i6 <- pair_get_first i5;;
  s <- item_get_data i6;;
  (if negb (s =? server) then abort else ret tt);;
  i7 <- pair_get_second i5;;
  i8 <- pair_get_first i7;;
  eq <- item_equals clientNonce i8;;
  (if negb eq then abort else ret tt);;
  serverNonce <- pair_get_second i7;;
  item_free i4;;
  item_free i5;;
  item_free i6;;
  item_free i7;;
  item_free i8;;

  i9 <- encrypt serverPublicKey serverNonce;;
  net_send i9;;
  item_free i9;;

  (* assert item(clientNonce, ?cn) &*& !mypub(cn) &*& !mypub(sn) *)
  item_free clientNonce;;
  item_free serverNonce;;
  ret (clientNonce, serverNonce).

(** One iteration of the loop of [server]; the result is the pair of the items
    [nc] and [ns] of its last assertion. *)
Definition server_iteration (server : Z) (serverPrivateKey : item) : M (item * item) :=
  i1 <- net_receive;;
  i2 <- decrypt serverPrivateKey i1;;
  i3 <- pair_get_first i2;;
  client <- item_get_data i3;;
  clientNonce <- pair_get_second i2;;
  check_is_key clientNonce;;
  item_free i1;;
  item_free i2;;
  item_free i3;;
  (* open key(clientNonce, ?clientNonceCreator, ?clientNonceId,
                           ?clientNonceIsPublicKey, ?clientNonceInfo) *)
  match clientNonce with
  | key_item clientNonceCreator clientNonceId clientNonceIsPublicKey clientNonceInfo =>
      clientPublicKey <- get_client_public_key client;;
      noncePair <- create_keypair server
        (int_pair 2 (int_pair client (int_pair clientNonceCreator
           (int_pair (if clientNonceIsPublicKey then 1 else 0) clientNonceInfo))));;
      serverNonce <- keypair_get_private_key noncePair;;
      i0 <- keypair_get_public_key noncePair;;
      i1 <- create_data_item server;;
      i2 <- create_pair clientNonce serverNonce;;
      i3 <- create_pair i1 i2;;
      i4 <- encrypt clientPublicKey i3;;
      net_send i4;;
      item_free i0;;
      item_free i1;;
      item_free i2;;
      item_free i3;;
      item_free i4;;
      item_free clientPublicKey;;

      i1 <- net_receive;;
      i2 <- decrypt serverPrivateKey i1;;
      eq <- item_equals i2 serverNonce;;
      (if negb eq then abort else ret tt);;
      item_free i1;;
      item_free i2;;

      assume (negb (bad client));;
      (* assert !mypub(nc) &*& !mypub(ns) *)
      item_free clientNonce;;
      item_free serverNonce;;
      ret (clientNonce, serverNonce)
  | _ => halt Fault
  end.

(** The first [n] iterations of the loop of [server], which has no exit; the
    result lists the nonces of the iterations. *)
Fixpoint server (n : nat) (server_id : Z) (serverPrivateKey : item)
  : M (list (item * item)) :=
  match n with
  | O => ret []
  | S n' =>
      r <- server_iteration server_id serverPrivateKey;;
      rs <- server n' server_id serverPrivateKey;;
      ret (r :: rs)
  end.

(** One iteration of the inner loop of [attacker], for the principal [me] of
    the loop invariant. *)
Definition attacker_action (me : Z) : M unit :=
  action <- choose;;
  match action with
  | 0 =>
      (* Bad principals leak private keys... *)
      info <- choose;;
      keypair <- create_keypair me info;;
      sk <- keypair_get_private_key keypair;;
      pk <- keypair_get_public_key keypair;;
      net_send pk;;
      assume (bad me);;
      net_send sk;;
      item_free sk;;
      item_free pk
  | 1 =>
      (* Anyone can publish arbitrary data items... *)
      data <- choose;;
      item <- create_data_item data;;
      net_send item;;
      item_free item
  | 2 =>
      (* Anyone can create pairs of public items... *)
      first <- net_receive;;
      second <- net_receive;;
      pair <- create_pair first second;;
      item_free first;;
      item_free second;;
      net_send pair;;
      item_free pair
  | 3 =>
      (* Anyone can encrypt a public item with a published key... *)
      key <- net_receive;;
      payload <- net_receive;;
      check_is_key key;;
      item <- encrypt key payload;;
      item_free key;;
      item_free payload;;
      net_send item;;
      item_free item
  | 4 =>
      (* Anyone can deconstruct a public pair... *)
      pair <- net_receive;;
      first <- pair_get_first pair;;
      second <- pair_get_second pair;;
      item_free pair;;
      net_send first;;
      item_free first;;
      net_send second;;
      item_free second
  | 5 =>
      (* Anyone can decrypt a public item with a published private key... *)
      key <- net_receive;;
      package <- net_receive;;
      check_is_key key;;
      payload <- decrypt key package;;
      item_free key;;
      item_free package;;
      net_send payload;;
      item_free payload
  | _ => ret tt
  end.

(** The first [n] iterations of the inner loop of [attacker]. *)
Fixpoint attacker_loop (n : nat) (me : Z) : M unit :=
  match n with
  | O => ret tt
  | S n' => attacker_action me;; attacker_loop n' me
  end.

(** [attacker], cut after [n] actions: the inner loop has no exit, so the
    outer loop creates one principal and never comes round again. *)
Definition attacker (n : nat) : M unit :=
  me <- create_principal;;
  attacker_loop n me.


(** ** Notions used to state the properties *)

(** [keeps m Q]: from a state whose world is sound the run [m] ends, whether
    it returns or stops, in a state whose world is sound, and a result it
    returns satisfies [Q]. *)
Definition keeps {A} (m : M A) (Q : A -> Prop) : Prop :=
  forall s, world_sound s ->
    match m s with
    | Ret a s' => world_sound s' /\ Q a
    | Stop _ s' => world_sound s'
    end.

(** The first message of the client. *)
Definition client_hello (client server spkid n : Z) : item :=
  encrypted_item server spkid (int_pair 0 0)
    (pair_item (data_item client) (key_item client n false (int_pair 1 server))).

(** The info of the server nonce made for the client nonce [nc] that came
    with the name [c]. *)
Definition server_nonce_info (c : Z) (nc : item) : Z :=
  match nc with
  | key_item cnc cnid cnpub cninfo =>
      int_pair 2 (int_pair c (int_pair cnc (int_pair (if cnpub then 1 else 0) cninfo)))
  | _ => 0
  end.

(** The second message of the protocol, sent by the server. *)
Definition server_reply (c sv : Z) (nc ns : item) : item :=
  encrypted_item c (client_key_id c) (int_pair 0 0)
    (pair_item (data_item sv) (pair_item nc ns)).


(** [grows m]: the run [m] only adds to the world. *)
Definition grows {A} (m : M A) : Prop :=
  forall s, exists sent, world (final (m s)) = world s ++ sent.


(** ** The system: roles and attacker on one world

    The source runs the protocol functions and the attacker on the same
    world.  A schedule lists what runs, one after another: a new principal,
    a run of the client, an iteration of the server, an action of the
    attacker.  A run that stops ends there and leaves the state it reached
    to the next. *)

Definition actor_run (a : actor) : M unit :=
  match a with
  | NewPrincipal => create_principal;; ret tt
  | ClientRun c sv cskid spkid =>
      client c sv (key_item c cskid false (int_pair 0 0))
                  (key_item sv spkid true (int_pair 0 0));;
      ret tt
  | ServerRun sv sskid =>
      server_iteration sv (key_item sv sskid false (int_pair 0 0));;
      ret tt
  | AttackerAction me => attacker_action me
  end.

Definition settle {A} (m : M A) : M unit :=
  fun s => Ret tt (final (m s)).

Fixpoint schedule (l : list actor) : M unit :=
  match l with
  | [] => ret tt
  | a :: l' => settle (actor_run a);; schedule l'
  end.

(** * Properties *)

(** ** Reading boolean conditions *)

Ltac bool_hyps :=
  repeat match goal with
    | H : _ && _ = true |- _ => apply andb_true_iff in H; destruct H
    | H : negb _ = true |- _ => apply negb_true_iff in H
    | H : negb _ = false |- _ => apply negb_false_iff in H
    | H : (_ =? _) = true |- _ => apply Z.eqb_eq in H
    | H : bool_decide _ = true |- _ => apply bool_decide_eq_true in H
    | H : _ || _ = false |- _ => apply orb_false_iff in H; destruct H
    | H : false || _ = true |- _ => rewrite orb_false_l in H
    | H : true = false |- _ => discriminate H
    | H : false = true |- _ => discriminate H
    end.

Lemma mypub_key o k isPublicKey info :
  mypub (key_item o k isPublicKey info)
  = isPublicKey || bad o
    || (int_left info =? 1) && bad (int_right info)
    || (int_left info =? 2) && bad (int_left (int_right info)).
Proof. reflexivity. Qed.

Lemma mypub_pair f s : mypub (pair_item f s) = mypub f && mypub s.
Proof. reflexivity. Qed.

(** A private key with the info of an encryption key is public only if its
    creator is bad. *)
Lemma mypub_encryption_key c i :
  mypub (key_item c i false (int_pair 0 0)) = bad c.
Proof.
  rewrite mypub_key, int_left_int_pair. simpl. now rewrite !orb_false_r.
Qed.

(** The payload of a public ciphertext is public once the private key that
    opens it is public. *)
Lemma mypub_payload c i info p :
  mypub (encrypted_item c i info p) = true ->
  mypub (key_item c i false info) = true ->
  mypub p = true.
Proof.
  intros He Hk. simpl in He.
  apply orb_true_iff in He. destruct He as [He|He]; [exact He|].
  destruct p as [c0 i0 pk0 info0| |c0 i0 info0 m|f s]; try discriminate He.
  - bool_hyps. subst. rewrite mypub_encryption_key in Hk.
    rewrite mypub_key, Hk. now rewrite orb_true_r.
  - destruct s as [c0 i0 pk0 info0| | |fs ss]; try discriminate He.
    + bool_hyps. subst. rewrite mypub_encryption_key in Hk.
      rewrite mypub_pair, mypub_key, int_left_int_pair, int_right_int_pair, Hk.
      simpl. now rewrite orb_true_r.
    + destruct ss as [c0 i0 pk0 info0| | |]; try discriminate He.
      bool_hyps.
      match goal with H : int_left info0 = 2 |- _ => rename H into Hrole end.
      match goal with H : c = _ |- _ => rename H into Hc end.
      match goal with H : _ || _ = true |- _ => rename H into Hfs end.
      subst info pk0 f. rewrite mypub_encryption_key in Hk.
      assert (Hss : mypub (key_item c0 i0 false info0) = true).
      { rewrite mypub_key, Hrole, <- Hc, Hk. simpl. now rewrite orb_true_r. }
      rewrite !mypub_pair, Hss, andb_true_r. simpl.
      apply orb_true_iff in Hfs. destruct Hfs as [Hfs|Hfs]; [exact Hfs|].
      destruct fs as [c1 i1 pk1 info1| | |]; try discriminate Hfs.
      bool_hyps.
      match goal with H : c1 = c |- _ => rewrite mypub_key, H, Hk end.
      now rewrite orb_true_r.
Qed.

(** ** Runs that keep the world sound *)

Lemma keeps_ret {A} (a : A) (Q : A -> Prop) : Q a -> keeps (ret a) Q.
Proof. intros HQ s Hs. simpl. auto. Qed.

Lemma keeps_halt {A} (w : stop) (Q : A -> Prop) : keeps (halt w) Q.
Proof. intros s Hs. exact Hs. Qed.

Lemma keeps_bind {A B} (m : M A) (k : A -> M B) (Q : A -> Prop) (R : B -> Prop) :
  keeps m Q -> (forall a, Q a -> keeps (k a) R) -> keeps (bind m k) R.
Proof.
  intros Hm Hk s Hs. unfold bind. specialize (Hm s Hs).
  destruct (m s) as [a s'|w s']; [|exact Hm].
  destruct Hm as [Hs' Ha]. exact (Hk a Ha s' Hs').
Qed.

Lemma keeps_bind_ret {A B} (a : A) (k : A -> M B) (R : B -> Prop) :
  keeps (k a) R -> keeps (bind (ret a) k) R.
Proof. intros Hk s Hs. exact (Hk s Hs). Qed.

Lemma keeps_weaken {A} (m : M A) (Q R : A -> Prop) :
  keeps m Q -> (forall a, Q a -> R a) -> keeps m R.
Proof.
  intros Hm HQR s Hs. specialize (Hm s Hs).
  destruct (m s); [|exact Hm]. destruct Hm; auto.
Qed.

Lemma keeps_assume (b : bool) : keeps (assume b) (fun _ => b = true).
Proof. intros s Hs. unfold assume. destruct b; simpl; auto. Qed.

Lemma keeps_choose : keeps choose (fun _ => True).
Proof.
  intros s Hs. unfold choose. destruct (chooses s); simpl; auto.
Qed.

Lemma keeps_create_principal : keeps create_principal (fun _ => True).
Proof. intros s Hs. simpl. auto. Qed.

Lemma keeps_create_keypair p info :
  keeps (create_keypair p info) (fun kp => kp_creator kp = p /\ kp_info kp = info).
Proof.
  intros s Hs. unfold create_keypair. destruct (principal s !! p); simpl; auto.
Qed.

(** [net_send] requires a public item. *)
Lemma keeps_net_send d : mypub d = true -> keeps (net_send d) (fun _ => True).
Proof.
  intros Hd s Hs. simpl. split; [|exact I].
  unfold world_sound in *. simpl. apply Forall_app. split; [exact Hs|].
  constructor; [exact Hd|constructor].
Qed.

(** [net_receive] ensures a public item. *)
Lemma keeps_net_receive : keeps net_receive (fun d => mypub d = true).
Proof.
  intros s Hs. unfold net_receive.
  destruct (plucks s) as [|n rest]; [exact Hs|].
  destruct (world s !! n) as [d|] eqn:Hd; simpl; [|exact Hs].
  split; [exact Hs|].
  unfold world_sound in Hs. rewrite Forall_lookup in Hs. exact (Hs n d Hd).
Qed.

Lemma keeps_decrypt key i :
  mypub key = true -> mypub i = true -> keeps (decrypt key i) (fun p => mypub p = true).
Proof.
  intros Hk Hi. unfold decrypt.
  destruct key as [c id pk info| | |]; try apply keeps_halt.
  destruct pk; [apply keeps_halt|].
  destruct i as [|  |c0 id0 info0 p|]; try apply keeps_halt.
  destruct ((c0 =? c) && (id0 =? id) && (info0 =? info)) eqn:E; [|apply keeps_halt].
  bool_hyps. subst. apply keeps_ret. exact (mypub_payload _ _ _ _ Hi Hk).
Qed.

Lemma keeps_encrypt key p :
  mypub p = true -> keeps (encrypt key p) (fun e => mypub e = true).
Proof.
  intros Hp. unfold encrypt.
  destruct key as [c id pk info| | |]; try apply keeps_halt.
  destruct pk; [|apply keeps_halt].
  apply keeps_ret. simpl. now rewrite Hp.
Qed.

Lemma keeps_pair_get_first p :
  mypub p = true -> keeps (pair_get_first p) (fun f => mypub f = true).
Proof.
  intros Hp. destruct p; try apply keeps_halt.
  apply keeps_ret. rewrite mypub_pair in Hp. now bool_hyps.
Qed.

Lemma keeps_pair_get_second p :
  mypub p = true -> keeps (pair_get_second p) (fun f => mypub f = true).
Proof.
  intros Hp. destruct p; try apply keeps_halt.
  apply keeps_ret. rewrite mypub_pair in Hp. now bool_hyps.
Qed.

Lemma keeps_check_is_key i : keeps (check_is_key i) (fun _ => True).
Proof. destruct i; first [apply keeps_halt | now apply keeps_ret]. Qed.

(** One step of a run: take the first call with its lemma, go on with the rest. *)
Ltac keeps_step :=
  lazymatch goal with
  | |- keeps (bind (net_send _) _) _ =>
      eapply keeps_bind; [apply keeps_net_send|intros _ _]
  | |- keeps (bind net_receive _) _ =>
      eapply keeps_bind; [apply keeps_net_receive|intros ? ?]
  | |- keeps (bind choose _) _ =>
      eapply keeps_bind; [apply keeps_choose|intros ? _]
  | |- keeps (bind (create_keypair _ _) _) _ =>
      eapply keeps_bind; [apply keeps_create_keypair|intros [? ? ?] [? ?]; simpl in *; subst]
  | |- keeps (bind (assume _) _) _ =>
      eapply keeps_bind; [apply keeps_assume|intros [] ?]
  | |- keeps (bind (check_is_key _) _) _ =>
      eapply keeps_bind; [apply keeps_check_is_key|intros _ _]
  | |- keeps (bind (decrypt _ _) _) _ =>
      eapply keeps_bind; [apply keeps_decrypt|intros ? ?]
  | |- keeps (bind (encrypt _ _) _) _ =>
      eapply keeps_bind; [apply keeps_encrypt|intros ? ?]
  | |- keeps (bind (pair_get_first _) _) _ =>
      eapply keeps_bind; [apply keeps_pair_get_first|intros ? ?]
  | |- keeps (bind (pair_get_second _) _) _ =>
      eapply keeps_bind; [apply keeps_pair_get_second|intros ? ?]
  | |- keeps (bind (ret _) _) _ => apply keeps_bind_ret
  | |- keeps (ret _) _ => apply keeps_ret
  | |- keeps (net_send _) _ => apply keeps_net_send
  end.

Lemma attacker_action_keeps me : keeps (attacker_action me) (fun _ => True).
Proof.
  unfold attacker_action.
  eapply keeps_bind; [apply keeps_choose|intros action _].
  unfold keypair_get_private_key, keypair_get_public_key, create_data_item,
    create_pair, item_free.
  repeat match goal with
    | |- keeps (match ?p with _ => _ end) _ => destruct p
    end;
    repeat keeps_step; cbv beta in *; simpl; auto;
    (* what is sent is public because what was received is, and in
       action 0 because [me] is bad *)
    repeat match goal with H : _ = true |- _ => rewrite H end; reflexivity.
Qed.

Lemma attacker_loop_keeps n me : keeps (attacker_loop n me) (fun _ => True).
Proof.
  induction n as [|n IH]; simpl.
  - now apply keeps_ret.
  - eapply keeps_bind; [apply attacker_action_keeps|intros _ _; exact IH].
Qed.

Lemma attacker_keeps n : keeps (attacker n) (fun _ => True).
Proof.
  unfold attacker.
  eapply keeps_bind; [apply keeps_create_principal|intros me _].
  apply attacker_loop_keeps.
Qed.

(** ** What [mypub] says of the messages of the protocol *)

Ltac pair_laws :=
  repeat (rewrite int_left_int_pair in * || rewrite int_right_int_pair in * ).

Lemma client_hello_public c sv spkid n : mypub (client_hello c sv spkid n) = true.
Proof.
  unfold client_hello. cbn [mypub].
  rewrite !Z.eqb_refl, bool_decide_eq_true_2 by reflexivity.
  simpl. apply orb_true_r.
Qed.

Lemma client_nonce_secret c sv n :
  bad c = false -> bad sv = false ->
  mypub (key_item c n false (int_pair 1 sv)) = false.
Proof.
  intros Hc Hs. rewrite mypub_key. pair_laws. now rewrite Hc, Hs.
Qed.

Lemma server_nonce_secret c sv n nc :
  bad c = false -> bad sv = false ->
  (exists cnc cnid cnpub cninfo, nc = key_item cnc cnid cnpub cninfo) ->
  mypub (key_item sv n false (server_nonce_info c nc)) = false.
Proof.
  intros Hc Hs (cnc & cnid & cnpub & cninfo & ->).
  rewrite mypub_key. unfold server_nonce_info. pair_laws. now rewrite Hc, Hs.
Qed.

(** The server nonce a client accepts: the reply is public and echoes a
    client nonce that is not. *)
Lemma reply_nonce c sv cskid n sn :
  mypub (key_item c n false (int_pair 1 sv)) = false ->
  mypub (encrypted_item c cskid (int_pair 0 0)
           (pair_item (data_item sv)
              (pair_item (key_item c n false (int_pair 1 sv)) sn))) = true ->
  exists id0 info0,
    sn = key_item sv id0 false info0 /\
    int_left info0 = 2 /\
    int_left (int_right info0) = c /\
    int_left (int_right (int_right info0)) = c /\
    int_left (int_right (int_right (int_right info0))) = 0 /\
    int_right (int_right (int_right (int_right info0))) = int_pair 1 sv.
Proof.
  intros Hcn H. cbn [mypub] in H. fold (mypub (key_item c n false (int_pair 1 sv))) in H.
  rewrite Hcn in H. cbn [andb orb negb] in H.
  destruct sn as [c0 id0 pk0 info0| | |]; try discriminate H.
  bool_hyps. cbv iota in *.
  match goal with H : data_item _ = data_item _ |- _ => injection H as -> end.
  subst pk0. exists id0, info0. repeat split; congruence.
Qed.

(** The third message of the client is public. *)
Lemma client_finish_public sv spkid id0 info0 c :
  int_left info0 = 2 ->
  int_left (int_right info0) = c ->
  int_left (int_right (int_right info0)) = c ->
  int_left (int_right (int_right (int_right info0))) = 0 ->
  int_right (int_right (int_right (int_right info0))) = int_pair 1 sv ->
  mypub (encrypted_item sv spkid (int_pair 0 0) (key_item sv id0 false info0)) = true.
Proof.
  intros H2 Hc Hc' H0 Hi. cbn [mypub]. rewrite H2, Hc, Hc', H0, Hi.
  rewrite !Z.eqb_refl. simpl. apply orb_true_r.
Qed.

(** The client nonce a server takes from a public first message is public, or
    it is a nonce that the named client made for this server. *)
Lemma hello_nonce sv sskid c cnc cnid cnpub cninfo :
  mypub (encrypted_item sv sskid (int_pair 0 0)
           (pair_item (data_item c) (key_item cnc cnid cnpub cninfo))) = true ->
  mypub (key_item cnc cnid cnpub cninfo) = true
  \/ (cnc = c /\ cnpub = false /\ cninfo = int_pair 1 sv).
Proof.
  intros H. cbn [mypub] in H. fold (mypub (key_item cnc cnid cnpub cninfo)) in H.
  simpl in H. apply orb_true_iff in H. destruct H as [H|H]; [now left|].
  right. bool_hyps.
  match goal with H : data_item _ = data_item _ |- _ => injection H as -> end.
  auto.
Qed.

(** The reply of the server is public. *)
Lemma server_reply_public sv sskid c n cnc cnid cnpub cninfo :
  mypub (encrypted_item sv sskid (int_pair 0 0)
           (pair_item (data_item c) (key_item cnc cnid cnpub cninfo))) = true ->
  mypub (server_reply c sv (key_item cnc cnid cnpub cninfo)
           (key_item sv n false
              (server_nonce_info c (key_item cnc cnid cnpub cninfo)))) = true.
Proof.
  intros H. apply hello_nonce in H.
  unfold server_reply, server_nonce_info. cbn [mypub].
  fold (mypub (key_item cnc cnid cnpub cninfo)). pair_laws.
  rewrite !Z.eqb_refl, bool_decide_eq_true_2 by reflexivity.
  destruct H as [H|(-> & -> & ->)].
  - rewrite H. simpl. apply orb_true_r.
  - rewrite !Z.eqb_refl. cbn [andb orb negb]. now rewrite ?orb_true_r.
Qed.

(** The client nonce of a session the server completes: the third message is
    public and holds a server nonce that is not. *)
Lemma finish_nonce sv sskid c n cnc cnid cnpub cninfo :
  mypub (key_item sv n false (server_nonce_info c (key_item cnc cnid cnpub cninfo)))
    = false ->
  mypub (encrypted_item sv sskid (int_pair 0 0)
           (key_item sv n false
              (server_nonce_info c (key_item cnc cnid cnpub cninfo)))) = true ->
  cnc = c /\ cnpub = false /\ cninfo = int_pair 1 sv.
Proof.
  intros Hns H. cbn [mypub] in H.
  fold (mypub (key_item sv n false
                 (server_nonce_info c (key_item cnc cnid cnpub cninfo)))) in H.
  rewrite Hns in H. unfold server_nonce_info in H. pair_laws. simpl in H.
  bool_hyps. destruct cnpub; [discriminate|]. auto.
Qed.

(** ** The runs of the client *)

(** Destruct what a run in [H] branches on, innermost first. *)
Ltac run_branch H :=
  match type of H with
  | context [match ?x with _ => _ end] =>
      lazymatch x with
      | context [match _ with _ => _ end] => fail
      | _ => let E := fresh "E" in destruct x eqn:E
      end
  end.

Ltac run_inv H := repeat (simpl in H; try discriminate H; run_branch H).

Lemma client_returns c sv cskid spkid s cn sn s' :
  client c sv (key_item c cskid false (int_pair 0 0))
              (key_item sv spkid true (int_pair 0 0)) s = Ret (cn, sn) s' ->
  exists n k rest,
    principal s !! c = Some n /\
    cn = key_item c n false (int_pair 1 sv) /\
    plucks s = k :: rest /\
    (world s ++ [client_hello c sv spkid n]) !! k
      = Some (encrypted_item c cskid (int_pair 0 0)
                (pair_item (data_item sv) (pair_item cn sn))) /\
    s' = State (principals s) (<[c := n + 1]> (principal s))
           (world s ++ [client_hello c sv spkid n;
                        encrypted_item sv spkid (int_pair 0 0) sn])
           (chooses s) rest.
Proof.
  intros H. unfold client, bind, create_keypair, keypair_get_private_key,
    keypair_get_public_key, item_free, create_data_item, create_pair, encrypt,
    net_send, net_receive, decrypt, pair_get_first, pair_get_second,
    item_get_data, item_equals, abort, halt, ret in H.
  run_inv H. bool_hyps. subst. injection H as <- <- <-.
  exists z, n, l. unfold client_hello, set_world, set_plucks, set_principal.
  simpl. rewrite <- app_assoc. auto 10.
Qed.

Lemma client_completes c sv cskid spkid s n k rest sn :
  principal s !! c = Some n ->
  plucks s = k :: rest ->
  (world s ++ [client_hello c sv spkid n]) !! k
    = Some (encrypted_item c cskid (int_pair 0 0)
              (pair_item (data_item sv)
                 (pair_item (key_item c n false (int_pair 1 sv)) sn))) ->
  client c sv (key_item c cskid false (int_pair 0 0))
              (key_item sv spkid true (int_pair 0 0)) s
  = Ret (key_item c n false (int_pair 1 sv), sn)
        (State (principals s) (<[c := n + 1]> (principal s))
           (world s ++ [client_hello c sv spkid n;
                        encrypted_item sv spkid (int_pair 0 0) sn])
           (chooses s) rest).
Proof.
  intros Hn Hk Hr. unfold client_hello in Hr.
  unfold client, bind, create_keypair. rewrite Hn. simpl.
  unfold net_receive. simpl. rewrite Hk, Hr. simpl.
  repeat (rewrite ?Z.eqb_refl, ?bool_decide_eq_true_2 by reflexivity; simpl).
  unfold set_world, set_plucks, set_principal, client_hello. simpl.
  now rewrite <- app_assoc.
Qed.


(** ** The runs of the server *)

Lemma server_iteration_returns sv sskid s nc ns s' :
  server_iteration sv (key_item sv sskid false (int_pair 0 0)) s = Ret (nc, ns) s' ->
  exists c n k1 k2 rest,
    plucks s = k1 :: k2 :: rest /\
    world s !! k1
      = Some (encrypted_item sv sskid (int_pair 0 0) (pair_item (data_item c) nc)) /\
    (exists cnc cnid cnpub cninfo, nc = key_item cnc cnid cnpub cninfo) /\
    principal s !! sv = Some n /\
    ns = key_item sv n false (server_nonce_info c nc) /\
    (world s ++ [server_reply c sv nc ns]) !! k2
      = Some (encrypted_item sv sskid (int_pair 0 0) ns) /\
    bad c = false /\
    s' = State (principals s) (<[sv := n + 1]> (principal s))
           (world s ++ [server_reply c sv nc ns]) (chooses s) rest.
Proof.
  intros H. unfold server_iteration, bind, get_client_public_key, create_keypair,
    keypair_get_private_key, keypair_get_public_key, item_free, create_data_item,
    create_pair, encrypt, net_send, net_receive, decrypt, pair_get_first,
    pair_get_second, item_get_data, item_equals, check_is_key, assume, abort,
    halt, ret in H.
  run_inv H; bool_hyps; subst; injection H as <- <- <-;
    match goal with
    | Hn : principal s !! sv = Some ?z, Hp : plucks s = ?k1 :: ?k2 :: ?l,
      Hw : world s !! ?k1 = Some (encrypted_item _ _ _ (pair_item (data_item ?c) _))
      |- _ => exists c, z, k1, k2, l
    end;
    unfold server_reply, server_nonce_info, set_world, set_plucks, set_principal;
    simpl; eauto 15.
Qed.


(** ** Secrecy of the nonces *)

Lemma world_sound_snoc s d :
  world_sound s -> mypub d = true -> Forall (fun d => mypub d = true) (world s ++ [d]).
Proof.
  intros Hs Hd. apply Forall_app. split; [exact Hs|].
  constructor; [exact Hd|constructor].
Qed.

Lemma client_secrecy c sv cskid spkid s cn sn s' :
  bad c = false -> bad sv = false -> world_sound s ->
  client c sv (key_item c cskid false (int_pair 0 0))
              (key_item sv spkid true (int_pair 0 0)) s = Ret (cn, sn) s' ->
  mypub cn = false /\ mypub sn = false /\ world_sound s'.
Proof.
  intros Hc Hsv Hs H.
  apply client_returns in H.
  destruct H as (n & k & rest & Hn & -> & Hk & Hr & ->).
  pose proof (world_sound_snoc s _ Hs (client_hello_public c sv spkid n)) as Hw.
  pose proof (client_nonce_secret c sv n Hc Hsv) as Hcn.
  rewrite Forall_lookup in Hw. apply Hw in Hr.
  destruct (reply_nonce _ _ _ _ _ Hcn Hr)
    as (id0 & info0 & -> & Hrole & Hcl & Hcl' & Hpk & Hinfo).
  split; [exact Hcn|]. split.
  - rewrite mypub_key, Hrole, Hcl, Hc, Hsv. reflexivity.
  - unfold world_sound. simpl.
    change [client_hello c sv spkid n;
            encrypted_item sv spkid (int_pair 0 0) (key_item sv id0 false info0)]
      with ([client_hello c sv spkid n]
            ++ [encrypted_item sv spkid (int_pair 0 0) (key_item sv id0 false info0)]).
    rewrite app_assoc. apply Forall_app. split.
    + apply world_sound_snoc; [exact Hs|apply client_hello_public].
    + constructor; [|constructor].
      exact (client_finish_public sv spkid id0 info0 c Hrole Hcl Hcl' Hpk Hinfo).
Qed.

Lemma server_iteration_secrecy sv sskid s nc ns s' :
  bad sv = false -> world_sound s ->
  server_iteration sv (key_item sv sskid false (int_pair 0 0)) s = Ret (nc, ns) s' ->
  mypub nc = false /\ mypub ns = false /\ world_sound s'.
Proof.
  intros Hsv Hs H.
  apply server_iteration_returns in H.
  destruct H as (c & n & k1 & k2 & rest & Hp & H1 & Hkey & Hn & -> & H3 & Hc & ->).
  pose proof Hkey as (cnc & cnid & cnpub & cninfo & ->).
  pose proof Hs as Hs0. unfold world_sound in Hs0. rewrite Forall_lookup in Hs0.
  apply Hs0 in H1.
  pose proof (server_reply_public sv sskid c n cnc cnid cnpub cninfo H1) as Hreply.
  pose proof (world_sound_snoc s _ Hs Hreply) as Hw.
  pose proof (server_nonce_secret c sv n _ Hc Hsv Hkey) as Hns.
  pose proof Hw as Hw0. rewrite Forall_lookup in Hw0. apply Hw0 in H3.
  destruct (finish_nonce _ _ _ _ _ _ _ _ Hns H3) as (-> & -> & ->).
  split; [exact (client_nonce_secret c sv cnid Hc Hsv)|].
  split; [exact Hns|exact Hw].
Qed.

Lemma server_secrecy n sv sskid : forall s l s',
  bad sv = false -> world_sound s ->
  server n sv (key_item sv sskid false (int_pair 0 0)) s = Ret l s' ->
  Forall (fun r => mypub (fst r) = false /\ mypub (snd r) = false) l /\ world_sound s'.
Proof.
  induction n as [|n IH]; intros s l s' Hsv Hs H; simpl in H.
  - injection H as <- <-. split; [constructor|exact Hs].
  - unfold bind in H.
    destruct (server_iteration sv _ s) as [[nc ns] s1|] eqn:E1; [|discriminate H].
    destruct (server n sv _ s1) as [rs s2|] eqn:E2; [|discriminate H].
    injection H as <- <-.
    destruct (server_iteration_secrecy _ _ _ _ _ _ Hsv Hs E1) as (Hnc & Hns & Hs1).
    destruct (IH _ _ _ Hsv Hs1 E2) as [Hrs Hs2].
    split; [|exact Hs2]. constructor; [split; assumption|exact Hrs].
Qed.

(** ** Runs only add to the world *)

Lemma grows_ret {A} (a : A) : grows (ret a).
Proof. intros s. exists []. simpl. now rewrite app_nil_r. Qed.

Lemma grows_halt {A} (w : stop) : grows (@halt A w).
Proof. intros s. exists []. simpl. now rewrite app_nil_r. Qed.

Lemma grows_bind {A B} (m : M A) (k : A -> M B) :
  grows m -> (forall a, grows (k a)) -> grows (bind m k).
Proof.
  intros Hm Hk s. unfold bind. destruct (Hm s) as [sent Hsent].
  destruct (m s) as [a s1|w s1]; simpl in *.
  - destruct (Hk a s1) as [sent' Hsent']. exists (sent ++ sent').
    now rewrite Hsent', Hsent, app_assoc.
  - now exists sent.
Qed.

Lemma grows_net_send d : grows (net_send d).
Proof. intros s. now exists [d]. Qed.

Lemma grows_net_receive : grows net_receive.
Proof.
  intros s. exists []. unfold net_receive.
  destruct (plucks s); [|destruct (world s !! _)]; simpl; now rewrite app_nil_r.
Qed.

Lemma grows_choose : grows choose.
Proof.
  intros s. exists []. unfold choose.
  destruct (chooses s); simpl; now rewrite app_nil_r.
Qed.

Lemma grows_create_principal : grows create_principal.
Proof. intros s. exists []. simpl. now rewrite app_nil_r. Qed.

Lemma grows_create_keypair p info : grows (create_keypair p info).
Proof.
  intros s. exists []. unfold create_keypair.
  destruct (principal s !! p); simpl; now rewrite app_nil_r.
Qed.

Lemma grows_assume b : grows (assume b).
Proof. destruct b; [apply grows_ret|apply grows_halt]. Qed.

Lemma grows_check_is_key i : grows (check_is_key i).
Proof. destruct i; first [apply grows_ret|apply grows_halt]. Qed.

Lemma grows_pair_get_first i : grows (pair_get_first i).
Proof. destruct i; first [apply grows_ret|apply grows_halt]. Qed.

Lemma grows_pair_get_second i : grows (pair_get_second i).
Proof. destruct i; first [apply grows_ret|apply grows_halt]. Qed.

Lemma grows_encrypt key p : grows (encrypt key p).
Proof.
  destruct key as [? ? [] ?| | |]; first [apply grows_ret|apply grows_halt].
Qed.

Lemma grows_decrypt key i : grows (decrypt key i).
Proof.
  unfold decrypt. destruct key as [c id [] info| | |]; try apply grows_halt.
  destruct i as [| |c0 id0 info0 p|]; try apply grows_halt.
  destruct ((c0 =? c) && (id0 =? id) && (info0 =? info));
    [apply grows_ret|apply grows_halt].
Qed.

Create HintDb grows.
#[local] Hint Resolve grows_ret grows_halt grows_net_send grows_net_receive
  grows_choose grows_create_principal grows_create_keypair grows_assume
  grows_check_is_key grows_pair_get_first grows_pair_get_second grows_encrypt
  grows_decrypt : grows.

Lemma attacker_action_grows me : grows (attacker_action me).
Proof.
  unfold attacker_action, keypair_get_private_key, keypair_get_public_key,
    create_data_item, create_pair, item_free.
  apply grows_bind; [apply grows_choose|intros action].
  repeat match goal with
    | |- grows (match ?p with _ => _ end) => destruct p
    end;
    repeat (apply grows_bind; [auto with grows|intros ?]); auto with grows.
Qed.

Lemma attacker_loop_grows n me : grows (attacker_loop n me).
Proof.
  induction n as [|n IH]; simpl; [apply grows_ret|].
  apply grows_bind; [apply attacker_action_grows|intros _; exact IH].
Qed.

Lemma attacker_grows n : grows (attacker n).
Proof.
  apply grows_bind; [apply grows_create_principal|intros me].
  apply attacker_loop_grows.
Qed.

(** What a run adds to a sound world is public. *)
Lemma sent_public {A} (m : M A) (Q : A -> Prop) s :
  keeps m Q -> grows m -> world_sound s ->
  exists sent, world (final (m s)) = world s ++ sent
               /\ Forall (fun d => mypub d = true) sent.
Proof.
  intros Hk Hg Hs. destruct (Hg s) as [sent Hsent]. exists sent.
  split; [exact Hsent|].
  specialize (Hk s Hs).
  assert (Hf : world_sound (final (m s))).
  { destruct (m s); simpl; [exact (proj1 Hk)|exact Hk]. }
  unfold world_sound in Hf. rewrite Hsent in Hf.
  apply Forall_app in Hf. exact (proj2 Hf).
Qed.

(** The first thing the client sends is [client_hello]. *)
Lemma client_world c sv cskid spkid s n :
  principal s !! c = Some n ->
  exists rest,
    world (final (client c sv (key_item c cskid false (int_pair 0 0))
                            (key_item sv spkid true (int_pair 0 0)) s))
    = world s ++ client_hello c sv spkid n :: rest.
Proof.
  intros Hn. unfold client, bind at 1, create_keypair. rewrite Hn.
  unfold bind, keypair_get_private_key, keypair_get_public_key, item_free,
    create_data_item, create_pair, encrypt, net_send, net_receive, decrypt,
    pair_get_first, pair_get_second, item_get_data, item_equals, abort, halt, ret.
  repeat (simpl;
          match goal with
          | |- context [match ?x with _ => _ end] =>
              lazymatch x with
              | context [match _ with _ => _ end] => fail
              | _ => destruct x
              end
          end);
    simpl; rewrite <- ?app_assoc; eexists; reflexivity.
Qed.

(** * The claims *)

(** C1. Secrecy.  When the client completes for a client and a server that
    are not bad, in a world that holds public items only, neither its client
    nonce nor the server nonce it accepted is public; and the same holds of
    the two nonces at the end of every iteration the server completes, where
    the server is not bad and the client it served is assumed not to be (the
    [assume] of the iteration). *)
Theorem secrecy :
  (forall c sv cskid spkid s cn sn s',
      bad c = false -> bad sv = false -> world_sound s ->
      client c sv (key_item c cskid false (int_pair 0 0))
                  (key_item sv spkid true (int_pair 0 0)) s = Ret (cn, sn) s' ->
      mypub cn = false /\ mypub sn = false)
  /\
  (forall n sv sskid s l s',
      bad sv = false -> world_sound s ->
      server n sv (key_item sv sskid false (int_pair 0 0)) s = Ret l s' ->
      Forall (fun r => mypub (fst r) = false /\ mypub (snd r) = false) l).
Proof.
  split.
  - intros c sv cskid spkid s cn sn s' Hc Hsv Hs H.
    destruct (client_secrecy _ _ _ _ _ _ _ _ Hc Hsv Hs H) as (Hcn & Hsn & _).
    split; assumption.
  - intros n sv sskid s l s' Hsv Hs H.
    exact (proj1 (server_secrecy n sv sskid s l s' Hsv Hs H)).
Qed.

(** C2. The classifier is closed under decryption: the payload of a public
    ciphertext whose private key is public is public, so what [decrypt]
    returns for a public key and a public package is public. *)
Theorem decryption_closed :
  (forall c i info p,
      mypub (encrypted_item c i info p) = true ->
      mypub (key_item c i false info) = true ->
      mypub p = true)
  /\
  (forall key package s p s',
      mypub key = true -> mypub package = true ->
      decrypt key package s = Ret p s' ->
      mypub p = true).
Proof.
  split.
  - exact mypub_payload.
  - intros key package s p s' Hk Hp H. unfold decrypt in H.
    destruct key as [c id [] info| | |]; try discriminate H.
    destruct package as [| |c0 id0 info0 m|]; try discriminate H.
    destruct ((c0 =? c) && (id0 =? id) && (info0 =? info)) eqn:E;
      [|discriminate H].
    injection H as <- _. bool_hyps. subst.
    exact (mypub_payload _ _ _ _ Hp Hk).
Qed.

(** C3. World-soundness under the attacker alone.  From a world of public
    items, whatever one action of the attacker sends is public, and so is
    whatever the attacker sends in any number of actions; from the initial
    state the world stays sound however far the attacker runs.  The private
    key of action 0 is sent on the paths where [assume(bad(me))] holds, as
    in the source. *)
Theorem attacker_world_sound :
  (forall me s, world_sound s ->
     exists sent, world (final (attacker_action me s)) = world s ++ sent
                  /\ Forall (fun d => mypub d = true) sent)
  /\
  (forall n s, world_sound s ->
     exists sent, world (final (attacker n s)) = world s ++ sent
                  /\ Forall (fun d => mypub d = true) sent)
  /\
  (forall n cs ps, world_sound (final (attacker n (initial cs ps)))).
Proof.
  split; [|split].
  - intros me s Hs.
    exact (sent_public _ _ s (attacker_action_keeps me) (attacker_action_grows me) Hs).
  - intros n s Hs.
    exact (sent_public _ _ s (attacker_keeps n) (attacker_grows n) Hs).
  - intros n cs ps.
    assert (Hs : world_sound (initial cs ps)) by constructor.
    pose proof (attacker_keeps n _ Hs) as H.
    destruct (attacker n (initial cs ps)); simpl; [exact (proj1 H)|exact H].
Qed.

(** C4. Key classification.  [mypub] of a key is the disjunction the source
    writes; so a key is public if it is a public half, if its creator is bad,
    if its info is [int_pair 1 owner] for a bad owner, or if its info is
    [int_pair 2 (int_pair client fields)] for a bad client. *)
Theorem key_classification creator index isPublicKey info :
  mypub (key_item creator index isPublicKey info)
  = (isPublicKey || bad creator
     || (int_left info =? 1) && bad (int_right info)
     || (int_left info =? 2) && bad (int_left (int_right info)))
  /\ (isPublicKey = true -> mypub (key_item creator index isPublicKey info) = true)
  /\ (bad creator = true -> mypub (key_item creator index isPublicKey info) = true)
  /\ (forall owner, info = int_pair 1 owner -> bad owner = true ->
        mypub (key_item creator index isPublicKey info) = true)
  /\ (forall client fields, info = int_pair 2 (int_pair client fields) ->
        bad client = true ->
        mypub (key_item creator index isPublicKey info) = true).
Proof.
  split; [reflexivity|]. rewrite mypub_key. repeat split.
  - intros ->. reflexivity.
  - intros ->. now rewrite orb_true_r.
  - intros owner -> Ho. pair_laws. rewrite Ho. cbn [Z.eqb Pos.eqb andb].
    now rewrite orb_true_r.
  - intros cl fields -> Hc. pair_laws. rewrite Hc. cbn [Z.eqb Pos.eqb andb].
    now rewrite orb_true_r.
Qed.

(** C5. The first message of the honest client is public for all principals
    [C] and [S] and every key index [n], although its payload is not public
    when neither [C] nor [S] is bad; it is the first item the client sends. *)
Theorem first_message_public C S n cskid spkid :
  mypub (encrypted_item S spkid (int_pair 0 0)
           (pair_item (data_item C) (key_item C n false (int_pair 1 S)))) = true
  /\ (bad C = false -> bad S = false ->
      mypub (pair_item (data_item C) (key_item C n false (int_pair 1 S))) = false)
  /\ (forall s, principal s !! C = Some n ->
      exists rest,
        world (final (client C S (key_item C cskid false (int_pair 0 0))
                                (key_item S spkid true (int_pair 0 0)) s))
        = world s
          ++ encrypted_item S spkid (int_pair 0 0)
               (pair_item (data_item C) (key_item C n false (int_pair 1 S)))
             :: rest).
Proof.
  split; [exact (client_hello_public C S spkid n)|]. split.
  - intros HC HS. rewrite mypub_pair, (client_nonce_secret C S n HC HS). reflexivity.
  - intros s Hn. exact (client_world C S cskid spkid s n Hn).
Qed.

(** C6. Pair classification.  A pair is public exactly if both components
    are; so the pair of two public items is public and both projections of a
    public pair are, which is what the attacker sends when it makes a pair
    (action 2) and when it takes one apart (action 4). *)
Theorem pair_classification :
  (forall f s, mypub (pair_item f s) = mypub f && mypub s)
  /\ (forall f s, mypub f = true -> mypub s = true -> mypub (pair_item f s) = true)
  /\ (forall f s, mypub (pair_item f s) = true -> mypub f = true /\ mypub s = true)
  /\ (forall me st k1 k2 ps cs f s,
        chooses st = 2 :: cs -> plucks st = k1 :: k2 :: ps ->
        world st !! k1 = Some f -> world st !! k2 = Some s ->
        attacker_action me st
        = Ret tt (State (principals st) (principal st)
                    (world st ++ [pair_item f s]) cs ps))
  /\ (forall me st k ps cs f s,
        chooses st = 4 :: cs -> plucks st = k :: ps ->
        world st !! k = Some (pair_item f s) ->
        attacker_action me st
        = Ret tt (State (principals st) (principal st)
                    (world st ++ [f; s]) cs ps)).
Proof.
  split; [reflexivity|]. split; [|split; [|split]].
  - intros f s Hf Hs. now rewrite mypub_pair, Hf, Hs.
  - intros f s H. rewrite mypub_pair in H. now apply andb_true_iff in H.
  - intros me st k1 k2 ps cs f s Hc Hp H1 H2.
    unfold attacker_action, bind, choose. rewrite Hc. simpl.
    unfold net_receive. simpl. rewrite Hp, H1. simpl. rewrite H2. reflexivity.
  - intros me st k ps cs f s Hc Hp H1.
    unfold attacker_action, bind, choose. rewrite Hc. simpl.
    unfold net_receive. simpl. rewrite Hp, H1. simpl.
    unfold set_world. simpl. now rewrite <- app_assoc.
Qed.

(** C7. Client response validation.  Let the client hold [n] keys and let
    [r] be the item it receives after its first message.  If [r] decrypts
    to [Pair(sidt, Pair(echoed, sn))], the client aborts when [sidt] is not
    [Data(server)], aborts when [echoed] is not its own nonce, and otherwise
    sends the third message [Encrypted(serverPublicKey, sn)] and completes;
    and it completes only on such an [r] that passes both checks. *)
Theorem client_validation c sv cskid spkid s n k rest r :
  let cn := key_item c n false (int_pair 1 sv) in
  let cpriv := key_item c cskid false (int_pair 0 0) in
  let spub := key_item sv spkid true (int_pair 0 0) in
  let s1 := State (principals s) (<[c := n + 1]> (principal s))
              (world s ++ [client_hello c sv spkid n]) (chooses s) rest in
  principal s !! c = Some n ->
  plucks s = k :: rest ->
  (world s ++ [client_hello c sv spkid n]) !! k = Some r ->
  (forall sidt echoed sn,
      r = encrypted_item c cskid (int_pair 0 0)
            (pair_item sidt (pair_item echoed sn)) ->
      (sidt <> data_item sv -> client c sv cpriv spub s = Stop Aborted s1)
      /\ (echoed <> cn -> client c sv cpriv spub s = Stop Aborted s1)
      /\ (sidt = data_item sv -> echoed = cn ->
          client c sv cpriv spub s
          = Ret (cn, sn)
              (set_world (world s1 ++ [encrypted_item sv spkid (int_pair 0 0) sn]) s1)))
  /\ (forall cn' sn' s',
      client c sv cpriv spub s = Ret (cn', sn') s' ->
      cn' = cn
      /\ r = encrypted_item c cskid (int_pair 0 0)
               (pair_item (data_item sv) (pair_item cn sn'))).
Proof.
  intros cn cpriv spub s1 Hn Hk Hr. split.
  - intros sidt echoed sn ->.
    assert (Hrun : client c sv cpriv spub s
                   = (i5 <- decrypt cpriv
                              (encrypted_item c cskid (int_pair 0 0)
                                 (pair_item sidt (pair_item echoed sn)));;
                      i6 <- pair_get_first i5;;
                      sid <- item_get_data i6;;
                      (if negb (sid =? sv) then abort else ret tt);;
                      i7 <- pair_get_second i5;;
                      i8 <- pair_get_first i7;;
                      eq <- item_equals cn i8;;
                      (if negb eq then abort else ret tt);;
                      serverNonce <- pair_get_second i7;;
                      i9 <- encrypt spub serverNonce;;
                      net_send i9;;
                      ret (cn, serverNonce)) s1).
    { unfold client, bind at 1, create_keypair. rewrite Hn.
      unfold bind, net_receive. simpl. rewrite Hk. unfold client_hello in Hr.
      rewrite Hr. reflexivity. }
    rewrite Hrun. clear Hrun.
    unfold bind, decrypt, cpriv. simpl. rewrite !Z.eqb_refl. simpl.
    split; [|split].
    + intros Hsid. destruct sidt as [| d | |]; simpl; try reflexivity.
      destruct (Z.eqb_spec d sv) as [->|Hd]; [now contradict Hsid|reflexivity].
    + intros Hecho. destruct sidt as [| d | |]; simpl; try reflexivity.
      destruct (d =? sv); [|reflexivity]. simpl.
      rewrite bool_decide_eq_false_2 by congruence. reflexivity.
    + intros -> ->. simpl. rewrite Z.eqb_refl. simpl.
      rewrite bool_decide_eq_true_2 by reflexivity. reflexivity.
  - intros cn' sn' s' H. apply client_returns in H.
    destruct H as (n' & k' & rest' & Hn' & -> & Hk' & Hr' & _).
    rewrite Hn in Hn'. injection Hn' as <-.
    rewrite Hk in Hk'. injection Hk' as <- <-.
    rewrite Hr in Hr'. injection Hr' as ->.
    split; reflexivity.
Qed.


(** * Further properties of the protocol *)

(** The third message of the client is public whenever the reply it answers
    is, whoever is bad. *)
Lemma reply_answer_public c sv cskid spkid n sn :
  mypub (encrypted_item c cskid (int_pair 0 0)
           (pair_item (data_item sv)
              (pair_item (key_item c n false (int_pair 1 sv)) sn))) = true ->
  mypub (encrypted_item sv spkid (int_pair 0 0) sn) = true.
Proof.
  intros H.
  destruct (mypub sn) eqn:Hsn; [cbn [mypub]; now rewrite Hsn|].
  destruct (mypub (key_item c n false (int_pair 1 sv))) eqn:Hcn.
  - cbn [mypub] in H. fold (mypub (key_item c n false (int_pair 1 sv))) in H.
    rewrite Hcn, Hsn in H. cbn [andb orb negb] in H.
    destruct sn as [c0 id0 pk0 info0| | |]; try discriminate H.
    bool_hyps.
    match goal with H : data_item _ = data_item _ |- _ => injection H as -> end.
    match goal with H : int_left info0 = 2 |- _ => rename H into Hrole end.
    match goal with H : c = int_left (int_right info0) |- _ => rename H into Hcl end.
    rewrite mypub_key in Hcn, Hsn. pair_laws.
    rewrite Hrole, <- Hcl in Hsn. cbn [Z.eqb Pos.eqb andb orb] in *.
    destruct (bad c), (bad c0); try discriminate Hcn;
      rewrite ?orb_true_r in Hsn; discriminate Hsn.
  - destruct (reply_nonce _ _ _ _ _ Hcn H)
      as (id0 & info0 & -> & Hrole & Hcl & Hcl' & Hpk & Hinfo).
    exact (client_finish_public sv spkid id0 info0 c Hrole Hcl Hcl' Hpk Hinfo).
Qed.

Lemma client_completed c sv cskid spkid s n cn sn s' :
  world_sound s -> principal s !! c = Some n ->
  client c sv (key_item c cskid false (int_pair 0 0))
              (key_item sv spkid true (int_pair 0 0)) s = Ret (cn, sn) s' ->
  world_sound s'
  /\ principal s' = <[c := n + 1]> (principal s)
  /\ cn = key_item c n false (int_pair 1 sv)
  /\ world s' = world s ++ [client_hello c sv spkid n;
                            encrypted_item sv spkid (int_pair 0 0) sn].
Proof.
  intros Hs Hn E.
  pose proof (world_sound_snoc s _ Hs (client_hello_public c sv spkid n)) as Hw.
  apply client_returns in E.
  destruct E as (n' & k & rest & Hn' & -> & Hk & Hr & ->).
  rewrite Hn in Hn'. injection Hn' as <-. simpl.
  split; [|auto].
  pose proof Hw as Hw'. rewrite Forall_lookup in Hw'. apply Hw' in Hr.
  apply (reply_answer_public c sv cskid spkid n sn) in Hr.
  unfold world_sound. simpl.
  change [client_hello c sv spkid n; encrypted_item sv spkid (int_pair 0 0) sn]
    with ([client_hello c sv spkid n]
          ++ [encrypted_item sv spkid (int_pair 0 0) sn]).
  rewrite app_assoc. apply Forall_app. split; [exact Hw|].
  constructor; [exact Hr|constructor].
Qed.

Lemma client_stopped c sv cskid spkid s n w s' :
  principal s !! c = Some n ->
  client c sv (key_item c cskid false (int_pair 0 0))
              (key_item sv spkid true (int_pair 0 0)) s = Stop w s' ->
  (w = Aborted \/ w = Blocked)
  /\ principal s' = <[c := n + 1]> (principal s)
  /\ world s' = world s ++ [client_hello c sv spkid n].
Proof.
  intros Hn E.
  unfold client, bind, create_keypair, keypair_get_private_key,
    keypair_get_public_key, item_free, create_data_item, create_pair, encrypt,
    net_send, net_receive, decrypt, pair_get_first, pair_get_second,
    item_get_data, item_equals, abort, halt, ret in E.
  rewrite Hn in E.
  run_inv E; injection E as <- <-; unfold client_hello; simpl; auto.
Qed.

(** X1. Every run of the client, completed or not.  With its [principal]
    chunk at key count [n], in a world of public items, the client never
    leaves the contract of an API function; it stops only by an abort or for
    want of an item to receive; it uses one key index; what it sends is its
    first message and, when it completes, the third; and the world is still
    sound, whether or not the client and the server are bad. *)
Theorem client_outcomes c sv cskid spkid s n :
  world_sound s -> principal s !! c = Some n ->
  world_sound (final (client c sv (key_item c cskid false (int_pair 0 0))
                               (key_item sv spkid true (int_pair 0 0)) s))
  /\ principal (final (client c sv (key_item c cskid false (int_pair 0 0))
                                  (key_item sv spkid true (int_pair 0 0)) s))
     = <[c := n + 1]> (principal s)
  /\ match client c sv (key_item c cskid false (int_pair 0 0))
                       (key_item sv spkid true (int_pair 0 0)) s with
     | Ret (cn, sn) s' =>
         cn = key_item c n false (int_pair 1 sv)
         /\ world s' = world s ++ [client_hello c sv spkid n;
                                   encrypted_item sv spkid (int_pair 0 0) sn]
     | Stop w s' =>
         (w = Aborted \/ w = Blocked)
         /\ world s' = world s ++ [client_hello c sv spkid n]
     end.
Proof.
  intros Hs Hn.
  destruct (client c sv _ _ s) as [[cn sn] s'|w s'] eqn:E; simpl.
  - destruct (client_completed _ _ _ _ _ _ _ _ _ Hs Hn E)
      as (Hs' & Hcount & Hcn & Hsent).
    auto.
  - destruct (client_stopped _ _ _ _ _ _ _ _ Hn E) as (Hw & Hcount & Hsent).
    split; [|auto].
    unfold world_sound. rewrite Hsent.
    exact (world_sound_snoc s _ Hs (client_hello_public c sv spkid n)).
Qed.

Lemma server_completed sv sskid s n nc ns s' :
  world_sound s -> principal s !! sv = Some n ->
  server_iteration sv (key_item sv sskid false (int_pair 0 0)) s = Ret (nc, ns) s' ->
  world_sound s'
  /\ exists c, ns = key_item sv n false (server_nonce_info c nc)
               /\ world s' = world s ++ [server_reply c sv nc ns]
               /\ principal s' = <[sv := n + 1]> (principal s).
Proof.
  intros Hs Hn E.
  apply server_iteration_returns in E.
  destruct E as (c & n' & k1 & k2 & rest & Hp & H1 & Hkey & Hn' & -> & H3 & Hc & ->).
  rewrite Hn in Hn'. injection Hn' as <-. simpl. split; [|eauto].
  destruct Hkey as (cnc & cnid & cnpub & cninfo & ->).
  pose proof Hs as Hs0. unfold world_sound in Hs0. rewrite Forall_lookup in Hs0.
  apply Hs0 in H1.
  exact (world_sound_snoc s _ Hs (server_reply_public sv sskid c n cnc cnid cnpub cninfo H1)).
Qed.

Lemma server_stopped sv sskid s n w s' :
  world_sound s -> principal s !! sv = Some n ->
  server_iteration sv (key_item sv sskid false (int_pair 0 0)) s = Stop w s' ->
  world_sound s'
  /\ w <> Fault
  /\ ((world s' = world s /\ principal s' = principal s)
      \/ exists c nc,
           world s' = world s
             ++ [server_reply c sv nc (key_item sv n false (server_nonce_info c nc))]
           /\ principal s' = <[sv := n + 1]> (principal s)).
Proof.
  intros Hs Hn E.
  unfold server_iteration, bind, get_client_public_key, create_keypair,
    keypair_get_private_key, keypair_get_public_key, item_free, create_data_item,
    create_pair, encrypt, net_send, net_receive, decrypt, pair_get_first,
    pair_get_second, item_get_data, item_equals, check_is_key, assume, abort,
    halt, ret in E.
  assert (Hn1 : forall z, principal s !! sv = Some z -> z = n) by congruence.
  assert (Hn0 : principal s !! sv <> None) by congruence. clear Hn.
  pose proof Hs as Hs0. unfold world_sound in Hs0. rewrite Forall_lookup in Hs0.
  run_inv E; try contradiction;
    try match goal with
        | H : forall z0, Some ?z = Some z0 -> z0 = n |- _ =>
            pose proof (H z eq_refl); subst z
        end;
    injection E as <- <-; simpl;
    (split; [|split; [discriminate|]]);
    try (left; split; reflexivity); try exact Hs; bool_hyps; subst;
    match goal with
    | H1 : world s !! _
           = Some (encrypted_item _ _ _
                     (pair_item (data_item ?c) (key_item ?cnc ?cnid ?cnpub ?cninfo)))
      |- _ =>
        first
          [ apply Hs0 in H1;
            exact (world_sound_snoc s _ Hs
                     (server_reply_public sv sskid c n cnc cnid cnpub cninfo H1))
          | right; exists c, (key_item cnc cnid cnpub cninfo); split; reflexivity ]
    end.
Qed.


(** X3. Agreement at the server.  In an iteration that a server that is not
    bad completes, in a world of public items, the client nonce is a private
    key that the client named in the first message created for this server,
    and that client is not bad: the assertions [creator == client] and
    [info == int_pair(1, server)] of the source. *)
Theorem server_agreement sv sskid s nc ns s' :
  bad sv = false -> world_sound s ->
  server_iteration sv (key_item sv sskid false (int_pair 0 0)) s = Ret (nc, ns) s' ->
  exists c cnid n k,
    world s !! k = Some (encrypted_item sv sskid (int_pair 0 0)
                           (pair_item (data_item c) nc))
    /\ bad c = false
    /\ nc = key_item c cnid false (int_pair 1 sv)
    /\ principal s !! sv = Some n
    /\ ns = key_item sv n false
              (int_pair 2 (int_pair c (int_pair c (int_pair 0 (int_pair 1 sv))))).
Proof.
  intros Hsv Hs H.
  apply server_iteration_returns in H.
  destruct H as (c & n & k1 & k2 & rest & Hp & H1 & Hkey & Hn & -> & H3 & Hc & ->).
  pose proof Hkey as (cnc & cnid & cnpub & cninfo & ->).
  pose proof Hs as Hs0. unfold world_sound in Hs0. rewrite Forall_lookup in Hs0.
  pose proof (Hs0 _ _ H1) as Hm1.
  pose proof (server_reply_public sv sskid c n cnc cnid cnpub cninfo Hm1) as Hreply.
  pose proof (world_sound_snoc s _ Hs Hreply) as Hw.
  pose proof (server_nonce_secret c sv n _ Hc Hsv Hkey) as Hns.
  rewrite Forall_lookup in Hw. apply Hw in H3.
  destruct (finish_nonce _ _ _ _ _ _ _ _ Hns H3) as (-> & -> & ->).
  exists c, cnid, n, k1. auto 10.
Qed.

(** X4. Agreement at the client.  When a client completes for a client and a
    server that are not bad, in a world of public items, the server nonce it
    accepted is a private key created by the server, whose info reads as that
    of a server nonce (role 2) made for this client and for a private client
    nonce of this client with the info of this session. *)
Theorem client_agreement c sv cskid spkid s cn sn s' :
  bad c = false -> bad sv = false -> world_sound s ->
  client c sv (key_item c cskid false (int_pair 0 0))
              (key_item sv spkid true (int_pair 0 0)) s = Ret (cn, sn) s' ->
  exists n id0 info0,
    principal s !! c = Some n
    /\ cn = key_item c n false (int_pair 1 sv)
    /\ sn = key_item sv id0 false info0
    /\ int_left info0 = 2
    /\ int_left (int_right info0) = c
    /\ int_left (int_right (int_right info0)) = c
    /\ int_left (int_right (int_right (int_right info0))) = 0
    /\ int_right (int_right (int_right (int_right info0))) = int_pair 1 sv.
Proof.
  intros Hc Hsv Hs H.
  apply client_returns in H.
  destruct H as (n & k & rest & Hn & -> & Hk & Hr & ->).
  pose proof (world_sound_snoc s _ Hs (client_hello_public c sv spkid n)) as Hw.
  pose proof (client_nonce_secret c sv n Hc Hsv) as Hcn.
  rewrite Forall_lookup in Hw. apply Hw in Hr.
  destruct (reply_nonce _ _ _ _ _ Hcn Hr) as (id0 & info0 & -> & Hfacts).
  exists n, id0, info0. auto.
Qed.




(** ** The system *)

Lemma client_world_sound c sv cskid spkid s :
  world_sound s ->
  world_sound (final (client c sv (key_item c cskid false (int_pair 0 0))
                               (key_item sv spkid true (int_pair 0 0)) s)).
Proof.
  intros Hs. destruct (principal s !! c) as [n|] eqn:Hn.
  - destruct (client c sv _ _ s) as [[cn sn] s'|w s'] eqn:E; simpl.
    + exact (proj1 (client_completed _ _ _ _ _ _ _ _ _ Hs Hn E)).
    + destruct (client_stopped _ _ _ _ _ _ _ _ Hn E) as (_ & _ & Hsent).
      unfold world_sound. rewrite Hsent.
      exact (world_sound_snoc s _ Hs (client_hello_public c sv spkid n)).
  - unfold client, bind at 1, create_keypair. rewrite Hn. exact Hs.
Qed.

Lemma server_iteration_world_sound sv sskid s :
  world_sound s ->
  world_sound (final (server_iteration sv (key_item sv sskid false (int_pair 0 0)) s)).
Proof.
  intros Hs. destruct (principal s !! sv) as [n|] eqn:Hn.
  - destruct (server_iteration sv _ s) as [[nc ns] s'|w s'] eqn:E; simpl.
    + exact (proj1 (server_completed _ _ _ _ _ _ _ Hs Hn E)).
    + exact (proj1 (server_stopped _ _ _ _ _ _ Hs Hn E)).
  - destruct (server_iteration sv _ s) as [[nc ns] s'|w s'] eqn:E.
    + apply server_iteration_returns in E.
      destruct E as (c & n & _ & _ & _ & _ & _ & _ & Hn' & _). congruence.
    + unfold server_iteration, bind, get_client_public_key, create_keypair,
        keypair_get_private_key, keypair_get_public_key, item_free,
        create_data_item, create_pair, encrypt, net_send, net_receive, decrypt,
        pair_get_first, pair_get_second, item_get_data, item_equals,
        check_is_key, assume, abort, halt, ret in E.
      run_inv E; try congruence; injection E as <- <-; exact Hs.
Qed.

Lemma actor_run_world_sound a s :
  world_sound s -> world_sound (final (actor_run a s)).
Proof.
  intros Hs. destruct a as [|c sv cskid spkid|sv sskid|me]; simpl.
  - exact Hs.
  - unfold bind. pose proof (client_world_sound c sv cskid spkid s Hs) as H.
    destruct (client c sv _ _ s); exact H.
  - unfold bind. pose proof (server_iteration_world_sound sv sskid s Hs) as H.
    destruct (server_iteration sv _ s); exact H.
  - pose proof (attacker_action_keeps me s Hs) as H.
    destruct (attacker_action me s); [exact (proj1 H)|exact H].
Qed.

Lemma schedule_world_sound l : forall s,
  world_sound s -> world_sound (final (schedule l s)).
Proof.
  induction l as [|a l IH]; intros s Hs; [exact Hs|].
  cbn [schedule]. unfold bind, settle.
  apply IH. apply actor_run_world_sound. exact Hs.
Qed.

(** X6. World-soundness of the system.  Runs of the client, iterations of the
    server, actions of the attacker and new principals, in any number and
    any order, keep a world of public items sound, whoever is bad and whether
    the runs complete or stop; so from the initial state the world holds
    public items only, whatever the schedule. *)
Theorem system_world_sound :
  (forall l s, world_sound s -> world_sound (final (schedule l s)))
  /\ (forall l cs ps d,
        d ∈ world (final (schedule l (initial cs ps))) -> mypub d = true).
Proof.
  split; [exact schedule_world_sound|].
  intros l cs ps d Hd.
  assert (Hs : world_sound (initial cs ps)) by constructor.
  pose proof (schedule_world_sound l _ Hs) as H.
  unfold world_sound in H. rewrite Forall_forall in H. exact (H d Hd).
Qed.

(** X7. The nonces stay out of the world.  After a client has completed for
    a client and a server that are not bad, and after a server that is not
    bad has completed an iteration, neither nonce of the session is an item
    of the world, then or after whatever the system runs next. *)
Theorem nonces_never_sent :
  (forall c sv cskid spkid s cn sn s' l,
      bad c = false -> bad sv = false -> world_sound s ->
      client c sv (key_item c cskid false (int_pair 0 0))
                  (key_item sv spkid true (int_pair 0 0)) s = Ret (cn, sn) s' ->
      (cn ∉ world (final (schedule l s'))) /\ (sn ∉ world (final (schedule l s'))))
  /\
  (forall sv sskid s nc ns s' l,
      bad sv = false -> world_sound s ->
      server_iteration sv (key_item sv sskid false (int_pair 0 0)) s = Ret (nc, ns) s' ->
      (nc ∉ world (final (schedule l s'))) /\ (ns ∉ world (final (schedule l s')))).
Proof.
  assert (Hout : forall d s, world_sound s -> mypub d = false -> d ∉ world s).
  { intros d s Hs Hd Hin. unfold world_sound in Hs. rewrite Forall_forall in Hs.
    rewrite (Hs d Hin) in Hd. discriminate Hd. }
  split.
  - intros c sv cskid spkid s cn sn s' l Hc Hsv Hs H.
    destruct (client_secrecy _ _ _ _ _ _ _ _ Hc Hsv Hs H) as (Hcn & Hsn & Hs').
    pose proof (schedule_world_sound l s' Hs') as Hl. auto.
  - intros sv sskid s nc ns s' l Hsv Hs H.
    destruct (server_iteration_secrecy _ _ _ _ _ _ Hsv Hs H) as (Hnc & Hns & Hs').
    pose proof (schedule_world_sound l s' Hs') as Hl. auto.
Qed.

(** ** The actions of the attacker, one by one *)

(** X8. Key leakage (action 0).  The attacker makes the key pair of its next
    index with the info it chooses and sends the public key; if it is bad it
    then sends the private key as well, and if it is not, the run ends at
    [assume(bad(me))] with the public key alone in the world. *)
Theorem attacker_leaks_keys me s info cs n :
  chooses s = 0 :: info :: cs -> principal s !! me = Some n ->
  attacker_action me s
  = if bad me
    then Ret tt (State (principals s) (<[me := n + 1]> (principal s))
                   (world s ++ [key_item me n true info; key_item me n false info])
                   cs (plucks s))
    else Stop Assumed
           (State (principals s) (<[me := n + 1]> (principal s))
              (world s ++ [key_item me n true info]) cs (plucks s)).
Proof.
  intros Hc Hn. unfold attacker_action, bind, choose. rewrite Hc. simpl.
  unfold create_keypair. simpl. rewrite Hn. simpl.
  destruct (bad me); simpl; [|reflexivity].
  unfold set_world. simpl. now rewrite <- app_assoc.
Qed.

(** X9. Publication of data (action 1) and the actions the switch does not
    list.  Action 1 sends the data item of the integer the attacker chooses;
    an action below 0 or above 5 sends nothing and returns. *)
Theorem attacker_publishes_data me s :
  (forall d cs, chooses s = 1 :: d :: cs ->
     attacker_action me s
     = Ret tt (State (principals s) (principal s) (world s ++ [data_item d])
                 cs (plucks s)))
  /\ (forall action cs, chooses s = action :: cs -> action < 0 \/ 5 < action ->
     attacker_action me s
     = Ret tt (State (principals s) (principal s) (world s) cs (plucks s))).
Proof.
  split.
  - intros d cs Hc. unfold attacker_action, bind, choose. rewrite Hc. reflexivity.
  - intros action cs Hc Hrange. unfold attacker_action, bind, choose. rewrite Hc.
    simpl.
    destruct action as [|p|p]; [lia| |reflexivity].
    destruct p as [[p|[p|p|]|]|[p|[p|p|]|]|]; try reflexivity; lia.
Qed.

(** X10. Encryption by the attacker (action 3).  With a public key plucked
    first and any item second, the attacker sends the item encrypted under
    the identity of that key; with a private key or an item that is not a
    key it aborts and sends nothing. *)
Theorem attacker_encrypts me s cs k1 k2 ps key payload :
  chooses s = 3 :: cs -> plucks s = k1 :: k2 :: ps ->
  world s !! k1 = Some key -> world s !! k2 = Some payload ->
  attacker_action me s
  = match key with
    | key_item c i true info =>
        Ret tt (State (principals s) (principal s)
                  (world s ++ [encrypted_item c i info payload]) cs ps)
    | _ => Stop Aborted (State (principals s) (principal s) (world s) cs ps)
    end.
Proof.
  intros Hc Hp H1 H2. unfold attacker_action, bind, choose. rewrite Hc. simpl.
  unfold net_receive. simpl. rewrite Hp, H1. simpl. rewrite H2.
  destruct key as [c i [] info| | |]; reflexivity.
Qed.

(** X11. Decryption by the attacker (action 5).  The attacker sends the
    payload of the package it plucked exactly when the key it plucked is the
    private key of the identity (creator, id, info) the package was
    encrypted under; in every other case it aborts and sends nothing. *)
Theorem attacker_decrypts me s cs k1 k2 ps key package :
  chooses s = 5 :: cs -> plucks s = k1 :: k2 :: ps ->
  world s !! k1 = Some key -> world s !! k2 = Some package ->
  (forall c i info p,
      key = key_item c i false info -> package = encrypted_item c i info p ->
      attacker_action me s
      = Ret tt (State (principals s) (principal s) (world s ++ [p]) cs ps))
  /\ ((forall c i info p,
         ~ (key = key_item c i false info /\ package = encrypted_item c i info p)) ->
      attacker_action me s
      = Stop Aborted (State (principals s) (principal s) (world s) cs ps)).
Proof.
  intros Hc Hp H1 H2.
  assert (Hrun : attacker_action me s
                 = (check_is_key key;;
                    payload <- decrypt key package;;
                    net_send payload)
                     (State (principals s) (principal s) (world s) cs ps)).
  { unfold attacker_action, bind at 1, choose. rewrite Hc. simpl.
    unfold bind, net_receive. simpl. rewrite Hp, H1. simpl. rewrite H2.
    simpl. destruct (check_is_key key _); [|reflexivity].
    destruct (decrypt key package _); reflexivity. }
  rewrite Hrun. clear Hrun. split.
  - intros c i info p -> ->. unfold bind. simpl. now rewrite !Z.eqb_refl.
  - intros Hno. unfold bind.
    destruct key as [c i [] info| | |]; try reflexivity.
    destruct package as [| |c0 i0 info0 p|]; try reflexivity.
    simpl.
    destruct ((c0 =? c) && (i0 =? i) && (info0 =? info)) eqn:E; [|reflexivity].
    bool_hyps. subst. exfalso. exact (Hno c i info p (conj eq_refl eq_refl)).
Qed.

End NSL.


(** C8. Extractor failure semantics.  On an item that is not of the variant
    it expects, an extractor aborts: it does not return and it is not a
    fault; on an item of that variant it returns the field.  In both cases
    the state is the one it was called in, and the item is as it was: the
    two projections of a pair, one after the other, return its two
    components. *)
Theorem extractor_semantics :
  (forall d s, item_get_data (data_item d) s = Ret d s)
  /\ (forall t s, (forall d, t <> data_item d) -> item_get_data t s = Stop Aborted s)
  /\ (forall f sd s, pair_get_first (pair_item f sd) s = Ret f s)
  /\ (forall f sd s, pair_get_second (pair_item f sd) s = Ret sd s)
  /\ (forall f sd s,
        (a <- pair_get_first (pair_item f sd);;
         b <- pair_get_second (pair_item f sd);;
         ret (a, b)) s = Ret (f, sd) s)
  /\ (forall t s, (forall f sd, t <> pair_item f sd) ->
        pair_get_first t s = Stop Aborted s /\ pair_get_second t s = Stop Aborted s)
  /\ (forall creator id isPublicKey info s,
        check_is_key (key_item creator id isPublicKey info) s = Ret tt s)
  /\ (forall t s, (forall creator id isPublicKey info,
                      t <> key_item creator id isPublicKey info) ->
        check_is_key t s = Stop Aborted s).
Proof.
  split; [reflexivity|]. split; [|split; [reflexivity|]].
  { intros t s H. destruct t as [| d | |]; try reflexivity.
    exfalso. exact (H d eq_refl). }
  split; [reflexivity|]. split; [reflexivity|]. split; [|split; [reflexivity|]].
  { intros t s H.
    destruct t as [| | |f sd]; try (split; reflexivity). exfalso. exact (H f sd eq_refl). }
  intros t s H.
  destruct t as [c i p n| | |]; try reflexivity. exfalso. exact (H c i p n eq_refl).
Qed.

(** C9. [decrypt] returns only for a private key and an encrypted item made
    with the key of the same creator, id and info, and then it returns the
    payload; for a public key, for an item that is not encrypted and for an
    item encrypted with another key it aborts. *)
Theorem decrypt_semantics creator id isPublicKey info t s :
  (forall p s',
      decrypt (key_item creator id isPublicKey info) t s = Ret p s'
      <-> isPublicKey = false /\ t = encrypted_item creator id info p /\ s' = s)
  /\ (isPublicKey = true \/ (forall p, t <> encrypted_item creator id info p) ->
      decrypt (key_item creator id isPublicKey info) t s = Stop Aborted s).
Proof.
  unfold decrypt. split.
  - intros p s'. split.
    + intros H. destruct isPublicKey; [discriminate H|].
      destruct t as [| |c0 id0 info0 m|]; try discriminate H.
      destruct ((c0 =? creator) && (id0 =? id) && (info0 =? info)) eqn:E;
        [|discriminate H].
      injection H as <- <-.
      apply andb_true_iff in E. destruct E as [E E3].
      apply andb_true_iff in E. destruct E as [E1 E2].
      apply Z.eqb_eq in E1, E2, E3. subst. auto.
    + intros (-> & -> & ->). now rewrite !Z.eqb_refl.
  - intros [->|H]; [reflexivity|].
    destruct isPublicKey; [reflexivity|].
    destruct t as [| |c0 id0 info0 m|]; try reflexivity.
    destruct ((c0 =? creator) && (id0 =? id) && (info0 =? info)) eqn:E;
      [|reflexivity].
    apply andb_true_iff in E. destruct E as [E E3].
    apply andb_true_iff in E. destruct E as [E1 E2].
    apply Z.eqb_eq in E1, E2, E3. subst. exfalso. exact (H m eq_refl).
Qed.

(** ** The registry *)

Lemma registry_ok_create_principal s a s' :
  registry_ok s -> create_principal s = Ret a s' ->
  registry_ok s' /\ forall ci, unused s' ci -> unused s ci.
Proof.
  intros Hok H. injection H as <- <-. split.
  - intros p n. simpl. rewrite lookup_insert. case_decide as Hp.
    + intros _. subst p. lia.
    + intros Hl. apply Hok in Hl. lia.
  - intros [p i]. unfold unused. simpl.
    rewrite lookup_insert. case_decide as Hp; [|auto].
    subst p. intros _. destruct (principal s !! principals s) as [n|] eqn:E; [|exact I].
    apply Hok in E. lia.
Qed.

Lemma registry_ok_create_keypair s p info kp s' :
  registry_ok s -> create_keypair p info s = Ret kp s' ->
  registry_ok s'
  /\ unused s (identity kp)
  /\ ~ unused s' (identity kp)
  /\ forall ci, unused s' ci -> unused s ci.
Proof.
  intros Hok H. unfold create_keypair in H.
  destruct (principal s !! p) as [n|] eqn:Hn; [|discriminate H].
  injection H as <- <-. unfold unused, identity. simpl.
  rewrite lookup_insert_eq, Hn. repeat split.
  - intros q m. simpl. rewrite lookup_insert. case_decide as Hq.
    + intros _. subst q. exact (Hok _ _ Hn).
    + apply Hok.
  - lia.
  - lia.
  - intros [q i]. simpl. rewrite lookup_insert. case_decide as Hq; [|auto].
    subst q. rewrite Hn. lia.
Qed.

Lemma registry_run_unique calls : forall s kps s',
  registry_ok s -> registry_run calls s = Ret kps s' ->
  NoDup (map identity kps) /\ Forall (unused s) (map identity kps).
Proof.
  induction calls as [|c cs IH]; intros s kps s' Hok H; simpl in H.
  - injection H as <- _. split; constructor.
  - unfold bind in H.
    destruct (registry_step c s) as [k s1|] eqn:Ec; [|discriminate H].
    destruct (registry_run cs s1) as [ks s2|] eqn:Er; [|discriminate H].
    injection H as <- _.
    destruct c as [|p info]; simpl in Ec; unfold bind in Ec.
    + destruct (create_principal s) as [a s0|] eqn:Ep; [|discriminate Ec].
      injection Ec as <- <-.
      destruct (registry_ok_create_principal _ _ _ Hok Ep) as [Hok1 Hun].
      destruct (IH _ _ _ Hok1 Er) as [Hnd Hf]. simpl. split; [exact Hnd|].
      eapply Forall_impl; [exact Hf|exact Hun].
    + destruct (create_keypair p info s) as [kp s0|] eqn:Ek; [|discriminate Ec].
      injection Ec as <- <-.
      destruct (registry_ok_create_keypair _ _ _ _ _ Hok Ek)
        as (Hok1 & Hnew & Hold & Hun).
      destruct (IH _ _ _ Hok1 Er) as [Hnd Hf]. simpl. split.
      * constructor; [|exact Hnd].
        intros Hin. rewrite Forall_forall in Hf. exact (Hold (Hf _ Hin)).
      * constructor; [exact Hnew|].
        eapply Forall_impl; [exact Hf|exact Hun].
Qed.

(** C10. Registry uniqueness.  [create_principal] returns the running count
    of principals as the new id and gives it the key count zero;
    [create_keypair] for a principal with key count [n] makes the key pair of
    index [n] and moves the count to [n + 1]; and in a run of calls of the
    registry, from a state where every principal that has a key count has
    been counted, no two key pairs created have the same (creator, index). *)
Theorem registry_unique :
  (forall s,
      create_principal s
      = Ret (principals s)
          (State (principals s + 1) (<[principals s := 0]> (principal s))
             (world s) (chooses s) (plucks s)))
  /\ (forall s p info n,
      principal s !! p = Some n ->
      create_keypair p info s
      = Ret (Keypair p n info)
          (State (principals s) (<[p := n + 1]> (principal s))
             (world s) (chooses s) (plucks s)))
  /\ (forall calls s kps s',
      registry_ok s -> registry_run calls s = Ret kps s' ->
      NoDup (map identity kps)).
Proof.
  split; [reflexivity|]. split.
  - intros s p info n Hn. unfold create_keypair. now rewrite Hn.
  - intros calls s kps s' Hok H.
    exact (proj1 (registry_run_unique calls s kps s' Hok H)).
Qed.

(** * Further properties of the API and of the classifier *)

(** X12. The classifier grows with the set of bad principals: an item that is
    public stays public when more principals are bad. *)
Theorem mypub_monotone (int_left int_right : Z -> Z) (int_pair : Z -> Z -> Z)
    (bad bad' : Z -> bool) :
  (forall p, bad p = true -> bad' p = true) ->
  forall i,
    mypub int_left int_right int_pair bad i = true ->
    mypub int_left int_right int_pair bad' i = true.
Proof.
  intros Hbad.
  assert (Hkey : forall o k pk info,
             mypub int_left int_right int_pair bad (key_item o k pk info) = true ->
             mypub int_left int_right int_pair bad' (key_item o k pk info) = true).
  { intros o k pk info H. cbn [mypub] in *.
    repeat (apply orb_true_iff in H; destruct H as [H|H]).
    - now rewrite H.
    - now rewrite (Hbad _ H), orb_true_r.
    - apply andb_true_iff in H. destruct H as [H1 H2].
      rewrite H1, (Hbad _ H2). cbn [andb]. now rewrite !orb_true_r.
    - apply andb_true_iff in H. destruct H as [H1 H2].
      rewrite H1, (Hbad _ H2). cbn [andb]. now rewrite !orb_true_r. }
  fix IH 1. intros i H.
  destruct i as [o k pk info|d|c id info m|f s].
  - exact (Hkey o k pk info H).
  - reflexivity.
  - cbn [mypub] in H |- *. apply orb_true_iff in H. destruct H as [H|H].
    + now rewrite (IH m H).
    + apply orb_true_iff. right.
      destruct m as [| | |f s]; try exact H.
      destruct s as [| | |fs ss]; try exact H.
      destruct ss as [c0 id0 pk0 info0| | |]; try exact H.
      apply andb_true_iff in H. destruct H as [H Hfs].
      rewrite H. cbn [andb].
      apply orb_true_iff in Hfs. destruct Hfs as [Hfs|Hfs].
      * now rewrite (IH fs Hfs).
      * rewrite Hfs. apply orb_true_r.
  - cbn [mypub] in H |- *. apply andb_true_iff in H. destruct H as [Hf Hs].
    now rewrite (IH f Hf), (IH s Hs).
Qed.


(** X14. Key pairs do not open each other's ciphertexts.  Of two key pairs
    created one after the other, by the same principal or by two, the
    private key of either does not decrypt what was encrypted with the
    public key of the other: [decrypt] aborts. *)
Theorem other_keypair_aborts p1 info1 p2 info2 payload s n1 n2 :
  principal s !! p1 = Some n1 -> principal s !! p2 = Some n2 ->
  (exists s',
      (kp1 <- create_keypair p1 info1;;
       kp2 <- create_keypair p2 info2;;
       pk1 <- keypair_get_public_key kp1;;
       sk2 <- keypair_get_private_key kp2;;
       e <- encrypt pk1 payload;;
       decrypt sk2 e) s = Stop Aborted s')
  /\
  (exists s',
      (kp1 <- create_keypair p1 info1;;
       kp2 <- create_keypair p2 info2;;
       pk2 <- keypair_get_public_key kp2;;
       sk1 <- keypair_get_private_key kp1;;
       e <- encrypt pk2 payload;;
       decrypt sk1 e) s = Stop Aborted s').
Proof.
  intros H1 H2. unfold bind, create_keypair. rewrite H1. simpl.
  rewrite lookup_insert. destruct (decide (p1 = p2)) as [->|Hne].
  - simpl. rewrite Z.eqb_refl.
    replace (n1 =? n1 + 1) with false by (symmetry; apply Z.eqb_neq; lia).
    replace (n1 + 1 =? n1) with false by (symmetry; apply Z.eqb_neq; lia).
    split; eexists; reflexivity.
  - rewrite H2. simpl.
    replace (p1 =? p2) with false by (symmetry; apply Z.eqb_neq; lia).
    replace (p2 =? p1) with false by (symmetry; apply Z.eqb_neq; lia).
    split; eexists; reflexivity.
Qed.


(** * The call-permission library *)

(** X16. [exists(xs, p)] holds exactly when [p] holds of an element of [xs];
    so [lt_some(lt, ys, x)] holds exactly when [x] is below an element of
    [ys], and [exists] of an append is the disjunction. *)
Theorem exists_spec {t} (lt : t -> t -> bool) (p : t -> bool) (xs ys : list t) (x : t) :
  (exists_ xs p = true <-> exists y, y ∈ xs /\ p y = true)
  /\ (lt_some lt ys x = true <-> exists y, y ∈ ys /\ lt x y = true)
  /\ exists_ (xs ++ ys) p = exists_ xs p || exists_ ys p.
Proof.
  assert (H : forall (q : t -> bool) l,
             exists_ l q = true <-> exists y, y ∈ l /\ q y = true).
  { intros q l. induction l as [|a l IH]; simpl.
    - split; [discriminate|]. intros (y & Hy & _). inversion Hy.
    - rewrite orb_true_iff, IH. split.
      + intros [Ha|(y & Hy & Hq)].
        * exists a. split; [constructor|exact Ha].
        * exists y. split; [now constructor|exact Hq].
      + intros (y & Hy & Hq). inversion Hy; subst; eauto. }
  split; [apply H|]. split; [apply H|].
  induction xs as [|a xs IH]; simpl; [reflexivity|].
  now rewrite IH, orb_assoc.
Qed.

Lemma int_lt_iff x y : int_lt x y = true <-> 0 <= x < y.
Proof.
  unfold int_lt. rewrite andb_true_iff, Z.leb_le, Z.ltb_lt. tauto.
Qed.

Lemma int_lt_acc : forall y, Acc (holds int_lt) y.
Proof.
  assert (H : forall n y, y < n -> Acc (holds int_lt) y).
  { intros n. destruct (Z_lt_le_dec n 0) as [Hneg|Hpos].
    - intros y Hy. constructor. intros x Hx. apply int_lt_iff in Hx. lia.
    - revert n Hpos. apply (natlike_ind (fun n => forall y, y < n -> Acc (holds int_lt) y)).
      + intros y Hy. constructor. intros x Hx. apply int_lt_iff in Hx. lia.
      + intros n Hn IH y Hy. constructor. intros x Hx.
        apply int_lt_iff in Hx. apply IH. lia. }
  intros y. apply (H (y + 1)). lia.
Qed.

(** X17. [int_lt] is well-founded: every integer is accessible, and every set
    of integers that has an element has one with no lesser element in the
    set (the lemma [is_wf_int_lt] of the source, with the quantifiers
    written out). *)
Theorem int_lt_well_founded :
  well_founded (holds int_lt)
  /\ (forall (set : Z -> bool) x,
        set x = true ->
        exists m, set m = true /\ forall y, is_lesser_element set int_lt m y = false).
Proof.
  split; [exact int_lt_acc|].
  intros set x. induction (int_lt_acc x) as [x _ IH]. intros Hx.
  (* is there an element of the set below x? *)
  assert (Hdec : forall n, 0 <= n ->
            (exists y, 0 <= y < n /\ set y = true)
            \/ (forall y, 0 <= y < n -> set y = false)).
  { apply natlike_ind.
    - right. intros y Hy. lia.
    - intros n Hn [(y & Hy & Hs)|Hnone].
      + left. exists y. split; [lia|exact Hs].
      + destruct (set n) eqn:Hsn.
        * left. exists n. split; [lia|exact Hsn].
        * right. intros y Hy. destruct (Z.eq_dec y n) as [->|Hne]; [exact Hsn|].
          apply Hnone. lia. }
  destruct (Z_lt_le_dec x 0) as [Hneg|Hpos].
  - exists x. split; [exact Hx|]. intros y. unfold is_lesser_element.
    destruct (int_lt y x) eqn:Hlt; [|apply andb_false_r].
    apply int_lt_iff in Hlt. lia.
  - destruct (Hdec x Hpos) as [(y & Hy & Hs)|Hnone].
    + apply (IH y); [apply int_lt_iff; lia|exact Hs].
    + exists x. split; [exact Hx|]. intros y. unfold is_lesser_element.
      destruct (int_lt y x) eqn:Hlt; [|apply andb_false_r].
      apply int_lt_iff in Hlt. now rewrite (Hnone y Hlt).
Qed.

(** X18. The lexicographic order [pair_lt] of two well-founded orders is
    well-founded (the lemma [is_wf_pair_lt] of the source). *)
Theorem pair_lt_well_founded {a b} `{EqDecision a}
    (a_lt : a -> a -> bool) (b_lt : b -> b -> bool) :
  well_founded (holds a_lt) -> well_founded (holds b_lt) ->
  well_founded (holds (pair_lt a_lt b_lt)).
Proof.
  intros Ha Hb [x y]. revert y.
  induction (Ha x) as [x _ IHx]. intros y.
  induction (Hb y) as [y _ IHy].
  constructor. intros [x' y'] Hlt. unfold holds, pair_lt in Hlt. simpl in Hlt.
  apply orb_true_iff in Hlt. destruct Hlt as [Hlt|Hlt].
  - apply IHx. exact Hlt.
  - apply andb_true_iff in Hlt. destruct Hlt as [Heq Hlt].
    apply bool_decide_eq_true in Heq. subst x'. apply IHy. exact Hlt.
Qed.

(** * [class Division] *)

Lemma to_int_id z : int_min <= z <= int_max -> to_int z = z.
Proof.
  unfold to_int, int_min, int_max. intros Hz.
  rewrite Z.mod_small by lia. lia.
Qed.

Lemma quot_in_range nom denom :
  int_min <= nom <= int_max -> int_min <= denom <= int_max -> denom <> 0 ->
  ~ (nom = int_min /\ denom = -1) ->
  int_min <= Z.quot nom denom <= int_max.
Proof.
  unfold int_min, int_max. intros Hn Hd Hd0 Hcorner.
  pose proof (Z.quot_rem' nom denom) as Heq.
  pose proof (Z.rem_bound_abs nom denom Hd0) as Hr.
  pose proof (Z.rem_sign_nz nom denom) as Hsign.
  assert (Habs : Z.abs (Z.quot nom denom) <= Z.abs nom).
  { rewrite <- Z.quot_abs by exact Hd0.
    apply Z.quot_le_upper_bound; [lia|]. 
    assert (1 <= Z.abs denom) by lia. nia. }
  destruct (Z.eq_dec nom (-2147483648)) as [->|Hne]; [|lia].
  assert (Hd1 : denom <> -1) by tauto.
  destruct (Z.eq_dec denom 1) as [->|Hd2]; [rewrite Z.quot_1_r; lia|].
  assert (Habs2 : Z.abs (Z.quot (-2147483648) denom) <= 1073741824).
  { rewrite <- Z.quot_abs by exact Hd0.
    apply Z.quot_le_upper_bound; [lia|].
    assert (2 <= Z.abs denom) by lia. change (Z.abs (-2147483648)) with 2147483648. nia. }
  lia.
Qed.

(** X19. Division on Java integers.  For a divisor that is not zero,
    [division_test] returns the quotient truncated toward zero and the
    values at the assertion of [division_test2] satisfy
    [denom * tmp + rest == nom], except for [Integer.MIN_VALUE / -1], whose
    quotient wraps round to [Integer.MIN_VALUE]; with the divisor zero,
    which [division_test_fail] admits, the division throws. *)
Theorem division_results nom denom :
  int_min <= nom <= int_max -> int_min <= denom <= int_max ->
  (denom = 0 -> division_test_fail nom denom = None)
  /\ (denom <> 0 -> ~ (nom = int_min /\ denom = -1) ->
      division_test nom denom = Some (Z.quot nom denom)
      /\ exists tmp rest,
           division_test2 nom denom = Some (tmp, rest)
           /\ denom * tmp + rest = nom)
  /\ (nom = int_min -> denom = -1 ->
      division_test nom denom = Some int_min
      /\ division_test2 nom denom = Some (int_min, 0)).
Proof.
  intros Hn Hd. split; [|split].
  - intros ->. reflexivity.
  - intros Hd0 Hcorner.
    pose proof (quot_in_range nom denom Hn Hd Hd0 Hcorner) as Hq.
    unfold division_test, division_test2, java_div, java_rem.
    replace (denom =? 0) with false by (symmetry; apply Z.eqb_neq; exact Hd0).
    rewrite (to_int_id _ Hq). split; [reflexivity|].
    exists (Z.quot nom denom), (Z.rem nom denom).
    assert (Hr : int_min <= Z.rem nom denom <= int_max).
    { pose proof (Z.rem_bound_abs nom denom Hd0). unfold int_min, int_max in *. lia. }
    rewrite (to_int_id _ Hr). split; [reflexivity|].
    symmetry. apply Z.quot_rem'.
  - intros -> ->. split; reflexivity.
Qed.

(** X20. The assertion of [bigwiseand_test]: [x & 255] is at most 255, and
    not negative, for every integer [x]. *)
Theorem bigwiseand_bound x : 0 <= bigwiseand_test x <= 255.
Proof.
  unfold bigwiseand_test. change 255 with (Z.ones 8) at 1 2.
  rewrite Z.land_ones by lia.
  pose proof (Z.mod_pos_bound x (2 ^ 8) ltac:(lia)). change (2 ^ 8) with 256 in *. lia.
Qed.

(** * [stdio.h] *)

(** X21. The modes [fopen] accepts.  The precondition of [fopen] holds exactly
    when the file name has a terminator and the mode is one of the nine
    strings [r], [w], [a], [r+], [rb], [w+], [wb], [a+], [ab] followed by
    its terminator and nothing else; a mode of three letters such as [rb+]
    is outside it. *)
Theorem fopen_requires_modes fcs mcs :
  fopen_requires fcs mcs = true <-> NUL ∈ fcs /\ mcs ∈ fopen_modes.
Proof.
  unfold fopen_requires. split.
  - intros H.
    repeat (apply andb_true_iff in H; destruct H as [H ?]).
    apply bool_decide_eq_true in H.
    match goal with H : bool_decide (NUL ∈ mcs) = true |- _ =>
      apply bool_decide_eq_true in H; rename H into Hnul end.
    split; [exact H|].
    destruct mcs as [|c0 [|c1 [|c2 [|c3 l]]]]; try discriminate;
      simpl in *;
      repeat match goal with
             | H : _ || _ = true |- _ => apply orb_true_iff in H; destruct H as [H|H]
             | H : Ascii.eqb _ _ = true |- _ => apply Ascii.eqb_eq in H; subst
             end;
      unfold NUL in Hnul;
      repeat (apply elem_of_cons in Hnul; destruct Hnul as [Hnul|Hnul];
              [try discriminate Hnul; subst|]);
      try (now inversion Hnul);
      unfold fopen_modes, NUL; set_solver.
  - intros [Hf Hm]. rewrite (bool_decide_eq_true_2 _ Hf).
    unfold fopen_modes in Hm.
    repeat (apply elem_of_cons in Hm; destruct Hm as [->|Hm]; [reflexivity|]).
    inversion Hm.
Qed.

(** * The scenario, run *)

Lemma zleft_zpair f s : zleft (zpair f s) = f.
Proof. unfold zleft, zunpair, zpair. now rewrite decode_encode. Qed.

Lemma zright_zpair f s : zright (zpair f s) = s.
Proof. unfold zright, zunpair, zpair. now rewrite decode_encode. Qed.

Lemma client_start_sound : world_sound zleft zright zpair honest client_start.
Proof. repeat constructor. Qed.

Lemma server_start_sound : world_sound zleft zright zpair honest server_start.
Proof. repeat constructor. Qed.

Lemma secrecy_witness :
  (mypub zleft zright zpair honest nonce1 = false
   /\ mypub zleft zright zpair honest nonce2 = false)
  /\ Forall (fun r => mypub zleft zright zpair honest (fst r) = false
                      /\ mypub zleft zright zpair honest (snd r) = false)
       [(nonce1, nonce2)].
Proof.
  destruct (secrecy zleft zright zpair honest directory zleft_zpair zright_zpair)
    as [Hclient Hserver].
  split.
  - apply (Hclient 1 2 7 7 client_start nonce1 nonce2
             (State 3 {[1 := 1; 2 := 0]} [message2; message1; message3] [] [])).
    + reflexivity.
    + reflexivity.
    + exact client_start_sound.
    + vm_compute. reflexivity.
  - apply (Hserver 1%nat 2 7 server_start [(nonce1, nonce2)]
             (State 3 {[1 := 1; 2 := 1]} [message1; message3; message2] [] [])).
    + reflexivity.
    + exact server_start_sound.
    + vm_compute. reflexivity.
Defined.

Lemma decryption_closed_witness :
  mypub zleft zright zpair bad3
    (pair_item (data_item 1) (key_item 1 0 false (zpair 1 3))) = true.
Proof.
  destruct (decryption_closed zleft zright zpair bad3 zleft_zpair zright_zpair)
    as [Hpayload Hdecrypt].
  apply (Hdecrypt (private_key 3) message1_to_3 client_start _ client_start).
  - reflexivity.
  - reflexivity.
  - reflexivity.
Defined.

Lemma attacker_world_sound_witness :
  exists sent,
    world (final (attacker_action bad3 3
                    (State 4 {[3 := 0]} [message1_to_3] [0; 9] [])))
    = [message1_to_3] ++ sent
    /\ Forall (fun d => mypub zleft zright zpair bad3 d = true) sent.
Proof.
  destruct (attacker_world_sound zleft zright zpair bad3 zleft_zpair zright_zpair)
    as (Haction & Hrun & Hinitial).
  apply (Haction 3 (State 4 {[3 := 0]} [message1_to_3] [0; 9] [])).
  repeat constructor.
Defined.

Lemma key_classification_witness :
  mypub zleft zright zpair bad3 (key_item 3 0 false (zpair 0 0)) = true
  /\ mypub zleft zright zpair bad3 (key_item 1 0 false (zpair 1 3)) = true
  /\ mypub zleft zright zpair bad3
       (key_item 2 5 false (zpair 2 (zpair 3 (zpair 3 (zpair 0 (zpair 1 2)))))) = true.
Proof.
  split; [|split].
  - destruct (key_classification zleft zright zpair bad3 zleft_zpair zright_zpair
                3 0 false (zpair 0 0)) as (Heq & Hhalf & Hcreator & Hrole1 & Hrole2).
    apply Hcreator. reflexivity.
  - destruct (key_classification zleft zright zpair bad3 zleft_zpair zright_zpair
                1 0 false (zpair 1 3)) as (Heq & Hhalf & Hcreator & Hrole1 & Hrole2).
    apply (Hrole1 3); reflexivity.
  - destruct (key_classification zleft zright zpair bad3 zleft_zpair zright_zpair
                2 5 false (zpair 2 (zpair 3 (zpair 3 (zpair 0 (zpair 1 2))))))
      as (Heq & Hhalf & Hcreator & Hrole1 & Hrole2).
    apply (Hrole2 3 (zpair 3 (zpair 0 (zpair 1 2)))); reflexivity.
Defined.

Lemma first_message_public_witness :
  mypub zleft zright zpair honest message1 = true
  /\ mypub zleft zright zpair honest (pair_item (data_item 1) nonce1) = false.
Proof.
  destruct (first_message_public zleft zright zpair honest zleft_zpair zright_zpair
              1 2 0 7 7) as (Hpublic & Hpayload & Hsent).
  split.
  - exact Hpublic.
  - apply Hpayload; reflexivity.
Defined.

Lemma pair_classification_witness :
  mypub zleft zright zpair honest (pair_item (data_item 1) message1) = true
  /\ attacker_action honest 0 (State 1 {[0 := 0]} [message1; message3] [2] [0%nat; 1%nat])
     = Ret tt (State 1 {[0 := 0]}
                 ([message1; message3] ++ [pair_item message1 message3]) [] []).
Proof.
  destruct (pair_classification zleft zright zpair honest)
    as (Heq & Hmake & Htake & Haction2 & Haction4).
  split.
  - apply Hmake; reflexivity.
  - exact (Haction2 0 (State 1 {[0 := 0]} [message1; message3] [2] [0%nat; 1%nat])
             0%nat 1%nat [] [] message1 message3 eq_refl eq_refl eq_refl eq_refl).
Defined.

Lemma client_validation_witness :
  client zpair 1 2 (private_key 1) (public_key 2) client_start
  = Ret (nonce1, nonce2)
      (State 3 {[1 := 1; 2 := 0]} [message2; message1; message3] [] []).
Proof.
  destruct (client_validation zpair 1 2 7 7 client_start 0 0%nat [] message2)
    as [Hchecks Honly].
  - reflexivity.
  - reflexivity.
  - reflexivity.
  - destruct (Hchecks (data_item 2) nonce1 nonce2 eq_refl) as (_ & _ & Hpass).
    exact (Hpass eq_refl eq_refl).
Defined.

Lemma extractor_semantics_witness :
  item_get_data nonce1 client_start = Stop Aborted client_start
  /\ pair_get_first nonce1 client_start = Stop Aborted client_start
  /\ check_is_key message1 client_start = Stop Aborted client_start.
Proof.
  destruct extractor_semantics
    as (Hdata & Hnodata & Hfirst & Hsecond & Hboth & Hnopair & Hkey & Hnokey).
  split; [|split].
  - apply Hnodata. intros d H. discriminate H.
  - apply (Hnopair nonce1 client_start). intros f sd H. discriminate H.
  - apply Hnokey. intros creator id isPublicKey info H. discriminate H.
Defined.

Lemma decrypt_semantics_witness :
  decrypt (private_key 1) message2 client_start
  = Ret (pair_item (data_item 2) (pair_item nonce1 nonce2)) client_start
  /\ decrypt (public_key 1) message2 client_start = Stop Aborted client_start.
Proof.
  split.
  - apply (decrypt_semantics 1 7 false (zpair 0 0) message2 client_start).
    repeat split.
  - apply (decrypt_semantics 1 7 true (zpair 0 0) message2 client_start).
    left. reflexivity.
Defined.

Lemma registry_unique_witness :
  NoDup (map identity [Keypair 0 0 5; Keypair 0 1 5; Keypair 1 0 6]).
Proof.
  destruct registry_unique as (Hprincipal & Hkeypair & Hunique).
  apply (Hunique
           [CreatePrincipal; CreateKeypair 0 5; CreateKeypair 0 5;
            CreatePrincipal; CreateKeypair 1 6]
           (initial [] [])
           [Keypair 0 0 5; Keypair 0 1 5; Keypair 1 0 6]
           (State 2 {[0 := 2; 1 := 1]} [] [] [])).
  - intros p n H. discriminate H.
  - vm_compute. reflexivity.
Defined.

(** * The further properties, run *)

Lemma client_outcomes_witness :
  world_sound zleft zright zpair honest
    (final (client zpair 1 2 (private_key 1) (public_key 2) client_start))
  /\ principal (final (client zpair 1 2 (private_key 1) (public_key 2) client_start))
     = <[1 := 0 + 1]> (principal client_start).
Proof.
  destruct (client_outcomes zleft zright zpair honest zleft_zpair zright_zpair
              1 2 7 7 client_start 0 client_start_sound eq_refl)
    as (Hsound & Hcount & Hsent).
  split; [exact Hsound|exact Hcount].
Defined.


Lemma server_agreement_witness :
  exists c cnid n k,
    world server_start !! k
    = Some (encrypted_item 2 7 (zpair 0 0) (pair_item (data_item c) nonce1))
    /\ honest c = false
    /\ nonce1 = key_item c cnid false (zpair 1 2)
    /\ principal server_start !! 2 = Some n
    /\ nonce2 = key_item 2 n false
                  (zpair 2 (zpair c (zpair c (zpair 0 (zpair 1 2))))).
Proof.
  apply (server_agreement zleft zright zpair honest directory zleft_zpair
           zright_zpair 2 7 server_start nonce1 nonce2
           (State 3 {[1 := 1; 2 := 1]} [message1; message3; message2] [] [])).
  - reflexivity.
  - exact server_start_sound.
  - vm_compute. reflexivity.
Defined.

Lemma client_agreement_witness :
  exists n id0 info0,
    principal client_start !! 1 = Some n
    /\ nonce1 = key_item 1 n false (zpair 1 2)
    /\ nonce2 = key_item 2 id0 false info0
    /\ zleft info0 = 2
    /\ zleft (zright info0) = 1
    /\ zleft (zright (zright info0)) = 1
    /\ zleft (zright (zright (zright info0))) = 0
    /\ zright (zright (zright (zright info0))) = zpair 1 2.
Proof.
  apply (client_agreement zleft zright zpair honest zleft_zpair zright_zpair
           1 2 7 7 client_start nonce1 nonce2
           (State 3 {[1 := 1; 2 := 0]} [message2; message1; message3] [] [])).
  - reflexivity.
  - reflexivity.
  - exact client_start_sound.
  - vm_compute. reflexivity.
Defined.


Lemma attacker_start_sound : world_sound zleft zright zpair bad3 attacker_start.
Proof. repeat constructor. Qed.

Lemma system_world_sound_witness :
  world_sound zleft zright zpair bad3
    (final (schedule zpair bad3 directory busy_schedule attacker_start)).
Proof.
  destruct (system_world_sound zleft zright zpair bad3 directory zleft_zpair
              zright_zpair) as [Hany Hinitial].
  apply Hany. exact attacker_start_sound.
Defined.

Lemma nonces_never_sent_witness :
  (nonce1 ∉ world (final (schedule zpair honest directory busy_schedule
                             (State 3 {[1 := 1; 2 := 0]}
                                [message2; message1; message3] [] []))))
  /\ (nonce2 ∉ world (final (schedule zpair honest directory busy_schedule
                                (State 3 {[1 := 1; 2 := 0]}
                                   [message2; message1; message3] [] [])))).
Proof.
  destruct (nonces_never_sent zleft zright zpair honest directory zleft_zpair
              zright_zpair) as [Hclient Hserver].
  apply (Hclient 1 2 7 7 client_start nonce1 nonce2
           (State 3 {[1 := 1; 2 := 0]} [message2; message1; message3] [] [])
           busy_schedule).
  - reflexivity.
  - reflexivity.
  - exact client_start_sound.
  - vm_compute. reflexivity.
Defined.

Lemma attacker_leaks_keys_witness :
  attacker_action bad3 3 attacker_start
  = Ret tt (State 4 (<[3 := 0 + 1]> {[1 := 0; 2 := 0; 3 := 0]})
              ([message2] ++ [key_item 3 0 true 9; key_item 3 0 false 9])
              [2; 1; 42] [0%nat; 0%nat; 1%nat]).
Proof.
  exact (attacker_leaks_keys bad3 3 attacker_start 9 [2; 1; 42] 0 eq_refl eq_refl).
Defined.

Lemma attacker_publishes_data_witness :
  attacker_action honest 0 (State 1 {[0 := 0]} [] [1; 42] [])
  = Ret tt (State 1 {[0 := 0]} ([] ++ [data_item 42]) [] [])
  /\ attacker_action honest 0 (State 1 {[0 := 0]} [] [6] [])
     = Ret tt (State 1 {[0 := 0]} [] [] []).
Proof.
  split.
  - exact (proj1 (attacker_publishes_data honest 0 (State 1 {[0 := 0]} [] [1; 42] []))
             42 [] eq_refl).
  - exact (proj2 (attacker_publishes_data honest 0 (State 1 {[0 := 0]} [] [6] []))
             6 [] eq_refl (or_intror eq_refl)).
Defined.

Lemma attacker_encrypts_witness :
  attacker_action honest 0
    (State 1 {[0 := 0]} [public_key 2; message1] [3] [0%nat; 1%nat])
  = Ret tt (State 1 {[0 := 0]}
              ([public_key 2; message1] ++ [encrypted_item 2 7 (zpair 0 0) message1])
              [] []).
Proof.
  exact (attacker_encrypts honest 0
           (State 1 {[0 := 0]} [public_key 2; message1] [3] [0%nat; 1%nat])
           [] 0%nat 1%nat [] (public_key 2) message1 eq_refl eq_refl eq_refl eq_refl).
Defined.

Lemma attacker_decrypts_witness :
  attacker_action bad3 3
    (State 4 {[3 := 0]} [private_key 3; message1_to_3] [5] [0%nat; 1%nat])
  = Ret tt (State 4 {[3 := 0]}
              ([private_key 3; message1_to_3]
               ++ [pair_item (data_item 1) (key_item 1 0 false (zpair 1 3))])
              [] [])
  /\ attacker_action bad3 3
       (State 4 {[3 := 0]} [private_key 3; message1] [5] [0%nat; 1%nat])
     = Stop Aborted (State 4 {[3 := 0]} [private_key 3; message1] [] []).
Proof.
  split.
  - exact (proj1 (attacker_decrypts bad3 3
                    (State 4 {[3 := 0]} [private_key 3; message1_to_3] [5] [0%nat; 1%nat])
                    [] 0%nat 1%nat [] (private_key 3) message1_to_3
                    eq_refl eq_refl eq_refl eq_refl)
             3 7 (zpair 0 0) _ eq_refl eq_refl).
  - refine (proj2 (attacker_decrypts bad3 3
                     (State 4 {[3 := 0]} [private_key 3; message1] [5] [0%nat; 1%nat])
                     [] 0%nat 1%nat [] (private_key 3) message1
                     eq_refl eq_refl eq_refl eq_refl) _).
    intros c i info p [Hkey Hpackage]. injection Hkey as <- <- <-.
    discriminate Hpackage.
Defined.

Lemma mypub_monotone_witness :
  mypub zleft zright zpair bad3 message1 = true.
Proof.
  apply (mypub_monotone zleft zright zpair honest bad3).
  - intros p H. discriminate H.
  - reflexivity.
Defined.


Lemma other_keypair_aborts_witness :
  exists s',
    (kp1 <- create_keypair 1 5;;
     kp2 <- create_keypair 1 5;;
     pk1 <- keypair_get_public_key kp1;;
     sk2 <- keypair_get_private_key kp2;;
     e <- encrypt pk1 (data_item 42);;
     decrypt sk2 e) client_start = Stop Aborted s'.
Proof.
  exact (proj1 (other_keypair_aborts 1 5 1 5 (data_item 42) client_start 0 0
                  eq_refl eq_refl)).
Defined.


Lemma exists_spec_witness :
  exists y, y ∈ [3; 8; 5] /\ int_lt 4 y = true.
Proof.
  destruct (exists_spec int_lt (int_lt 4) [3; 8; 5] [3; 8; 5] 4)
    as (Hexists & Hsome & Happend).
  apply Hsome. reflexivity.
Defined.

Lemma int_lt_well_founded_witness :
  exists m, (5 <=? m) = true
            /\ forall y, is_lesser_element (fun z => 5 <=? z) int_lt m y = false.
Proof.
  destruct int_lt_well_founded as [Hacc Hminimal].
  apply (Hminimal (fun z => 5 <=? z) 9). reflexivity.
Defined.

Lemma pair_lt_well_founded_witness :
  well_founded (holds (pair_lt int_lt int_lt)).
Proof.
  apply (pair_lt_well_founded int_lt int_lt); exact int_lt_acc.
Defined.

Lemma division_results_witness :
  division_test (-7) 2 = Some (Z.quot (-7) 2)
  /\ exists tmp rest, division_test2 (-7) 2 = Some (tmp, rest) /\ 2 * tmp + rest = -7.
Proof.
  destruct (division_results (-7) 2) as (Hzero & Hquot & Hcorner).
  - unfold int_min, int_max. lia.
  - unfold int_min, int_max. lia.
  - apply Hquot.
    + discriminate.
    + intros [H _]. discriminate H.
Defined.

Lemma fopen_requires_modes_witness :
  fopen_requires ["f"; NUL]%char ["r"; "b"; NUL]%char = true
  /\ ~ (["r"; "b"; "+"; NUL]%char ∈ fopen_modes).
Proof.
  split.
  - apply (fopen_requires_modes ["f"; NUL]%char ["r"; "b"; NUL]%char).
    split.
    + repeat constructor.
    + unfold fopen_modes. repeat constructor.
  - intros H.
    assert (Hreq : fopen_requires [NUL] ["r"; "b"; "+"; NUL]%char = true).
    { apply (fopen_requires_modes [NUL] ["r"; "b"; "+"; NUL]%char).
      split; [constructor|exact H]. }
    discriminate Hreq.
Defined.
